(** * Sentinel-AI-AutoTriage: the incident-to-decision workflow

    A shallow embedding of [src/models.py], [src/llm_client.py],
    [src/sentinel_client.py] and [src/auto_triage.py].

    - Python [str] is [string] (a sequence of bytes, UTF-8 for non-ASCII
      text); the [dict] returned by [LLMClient.analyse_incident] is a
      [gmap string string].
    - The two remote services (the OpenAI completion endpoint and the
      Sentinel incident API), the process environment and the credential
      chain are collaborators: an interface [Collaborators W] over an
      arbitrary world state [W].  Every call may raise.
    - Effects are explicit: a computation maps a world to a new world, the
      events it emitted (collaborator calls and log records, in order) and
      either a value or the exception that escaped. *)

From Stdlib Require Import Ascii String.
From Stdlib Require QArith.
From stdpp Require Import gmap strings list fin_maps.

Set Default Proof Using "Type".

(** ** Python built-ins used by the code *)

Module py.

(** Exceptions, all of them subclasses of [Exception] (what the handlers
    [except Exception] of the code catch).  [KeyboardInterrupt] and
    [SystemExit] are not modelled. *)
Inductive exn : Type :=
| AttributeError (msg : string)
| IndexError (msg : string)
| KeyError (key : string)
| ImportError (msg : string)
| ValueError (msg : string)
| EnvironmentError (msg : string)
| ServiceError (msg : string).   (* whatever a remote SDK call raises *)

Inductive result (A : Type) : Type :=
| Ok (a : A)
| Raise (e : exn).
Global Arguments Ok {A} a.
Global Arguments Raise {A} e.

Global Instance exn_eq_dec : EqDecision exn.
Proof. solve_decision. Defined.

(** [c.lower()] on one character.  Only ASCII letters change; the bytes of
    a multi-byte UTF-8 character are all above 127 and are left alone.  No
    non-ASCII character lower-cases to one of the letters of "clos" or
    "new", so the prefix tests of the code see what Python sees. *)
Definition lower_ascii (c : ascii) : ascii :=
  let n := nat_of_ascii c in
  if (65 <=? n) && (n <=? 90) then ascii_of_nat (n + 32) else c.

(** [s.lower()] *)
Fixpoint lower (s : string) : string :=
  match s with
  | EmptyString => EmptyString
  | String c s' => String (lower_ascii c) (lower s')
  end.

(** [s.startswith(p)] *)
Fixpoint startswith (s p : string) {struct p} : bool :=
  match p, s with
  | EmptyString, _ => true
  | String _ _, EmptyString => false
  | String a p', String b s' => if decide (a = b) then startswith s' p' else false
  end.

(** White space is what [str.isspace()] accepts, and what [str.strip()]
    removes.  A [str] being kept in UTF-8, a white-space character takes
    one byte (U+0009 to U+000D, U+001C to U+001F, U+0020), two bytes
    (U+0085 and U+00A0, that is C2 85 and C2 A0) or three bytes (U+1680 is
    E1 9A 80; U+2000 to U+200A are E2 80 80 to E2 80 8A; U+2028, U+2029 and
    U+202F are E2 80 A8, E2 80 A9 and E2 80 AF; U+205F is E2 81 9F; U+3000
    is E3 80 80). *)
Definition space1 (c1 : ascii) : bool :=
  let n := nat_of_ascii c1 in
  ((9 <=? n) && (n <=? 13)) || ((28 <=? n) && (n <=? 32)).

Definition space2 (c1 c2 : ascii) : bool :=
  Nat.eqb (nat_of_ascii c1) 194
  && (Nat.eqb (nat_of_ascii c2) 133 || Nat.eqb (nat_of_ascii c2) 160).

Definition space3 (c1 c2 c3 : ascii) : bool :=
  let a := nat_of_ascii c1 in
  let b := nat_of_ascii c2 in
  let c := nat_of_ascii c3 in
  (Nat.eqb a 225 && Nat.eqb b 154 && Nat.eqb c 128)
  || (Nat.eqb a 226 && Nat.eqb b 128
      && (((128 <=? c) && (c <=? 138)) || Nat.eqb c 168 || Nat.eqb c 169 || Nat.eqb c 175))
  || (Nat.eqb a 226 && Nat.eqb b 129 && Nat.eqb c 159)
  || (Nat.eqb a 227 && Nat.eqb b 128 && Nat.eqb c 128).

(** The rest of [s] after its first character, when that is white space. *)
Definition leading_space (s : string) : option string :=
  match s with
  | String c1 s1 =>
      if space1 c1 then Some s1 else
      match s1 with
      | String c2 s2 =>
          if space2 c1 c2 then Some s2 else
          match s2 with
          | String c3 s3 => if space3 c1 c2 c3 then Some s3 else None
          | EmptyString => None
          end
      | EmptyString => None
      end
  | EmptyString => None
  end.

(** [s.lstrip()] *)
Fixpoint lstrip (s : string) : string :=
  match s with
  | String c1 s1 =>
      if space1 c1 then lstrip s1 else
      match s1 with
      | String c2 s2 =>
          if space2 c1 c2 then lstrip s2 else
          match s2 with
          | String c3 s3 => if space3 c1 c2 c3 then lstrip s3 else s
          | EmptyString => s
          end
      | EmptyString => s
      end
  | EmptyString => EmptyString
  end.

(** [s] consists of white-space characters only. *)
Definition all_space (s : string) : bool :=
  match lstrip s with
  | EmptyString => true
  | String _ _ => false
  end.

(** [s.rstrip()]: the text is cut where what follows is white space only. *)
Fixpoint rstrip (s : string) : string :=
  match s with
  | EmptyString => EmptyString
  | String c s' => if all_space s then EmptyString else String c (rstrip s')
  end.

(** [s.strip()] *)
Definition strip (s : string) : string := rstrip (lstrip s).

(** Truthiness of a [str | None] value: [None] and [""] are falsy. *)
Definition truthy (x : option string) : bool :=
  match x with
  | Some (String _ _) => true
  | _ => false
  end.

(** [x or d] for a [str | None] value [x] and a [str] default [d]. *)
Definition or_str (x : option string) (d : string) : string :=
  match x with
  | Some (String c s) => String c s
  | _ => d
  end.

(** [x or None] *)
Definition or_None (x : option string) : option string :=
  if truthy x then x else None.

End py.
Export py.

(** ** The services' data model *)

Module sdk.

(** Modelled from the spec: the store's status enumeration (New, Active,
    Closed), declared by the Azure SDK and not in this repository.  The
    code refers to the members as [IncidentStatus.NEW], [.ACTIVE] and
    [.CLOSED], which are therefore their [name]s. *)
Inductive IncidentStatus : Type := NEW | ACTIVE | CLOSED.

Global Instance IncidentStatus_eq_dec : EqDecision IncidentStatus.
Proof. solve_decision. Defined.

(** [status.name] *)
Definition status_name (s : IncidentStatus) : string :=
  match s with NEW => "NEW" | ACTIVE => "ACTIVE" | CLOSED => "CLOSED" end.

(** Modelled from the spec: the values of the members, the labels New,
    Active and Closed of the store's status enumeration. *)
Definition status_value (s : IncidentStatus) : string :=
  match s with NEW => "New" | ACTIVE => "Active" | CLOSED => "Closed" end.

(** What the code can observe of [props.severity]: its truthiness and its
    [name] attribute.  The value is [None], a member of the SDK's
    severity enumeration (kept by its [name]), or a plain [str], which is
    what the SDK's attribute type "str or IncidentSeverity" also admits
    and which has no [name] attribute. *)
Inductive Severity : Type :=
| SevNone
| SevMember (name : string)
| SevStr (s : string).

Global Instance Severity_eq_dec : EqDecision Severity.
Proof. solve_decision. Defined.

(** What the code can observe of [props.status]: as for the severity,
    [None], a member of the enumeration, or a plain [str]. *)
Inductive Status : Type :=
| StatusNone
| StatusMember (member : IncidentStatus)
| StatusStr (s : string).

Global Instance Status_eq_dec : EqDecision Status.
Proof. solve_decision. Defined.

(** [member == status].  Modelled from the spec: the SDK declares its
    enumerations as [str] enumerations, so that a member is equal to
    itself and to the plain string of its value, and to nothing else. *)
Definition status_eq (member : IncidentStatus) (status : Status) : bool :=
  match status with
  | StatusNone => false
  | StatusMember m => bool_decide (m = member)
  | StatusStr s => bool_decide (s = status_value member)
  end.

(** [incident.properties] *)
Record IncidentProperties : Type := {
  title : option string;
  description : option string;
  severity : Severity;
  status : Status;
  classification : option string;
  classification_comment : option string;
}.

(** An incident record of the store. *)
Record Incident : Type := {
  name : string;
  properties : option IncidentProperties;
}.

Global Instance IncidentProperties_eq_dec : EqDecision IncidentProperties.
Proof. solve_decision. Defined.
Global Instance Incident_eq_dec : EqDecision Incident.
Proof. solve_decision. Defined.

(** The arguments of [openai.ChatCompletion.create]. *)
Record ChatRequest : Type := {
  model : string;
  messages : list (gmap string string);
  temperature : QArith_base.Q;
  max_tokens : nat;
}.

(** The reply: [response.choices[i].message] is a mapping. *)
Record ChatResponse : Type := {
  choices : list (gmap string string);
}.

(** [SentinelConfig] of [sentinel_client.py] *)
Record SentinelConfig : Type := {
  subscription_id : string;
  resource_group : string;
  workspace_name : string;
}.

(** [SecurityInsights(credential, subscription_id)] *)
Record SecurityInsights : Type := {
  client_subscription : string;
}.

End sdk.
Export sdk.

(** ** Events, and computations with effects *)

Inductive Level : Type := DEBUG | INFO | WARNING | ERROR.

(** An argument of a log record. *)
Inductive LogArg : Type :=
| ArgStr (s : string)
| ArgOptStr (s : option string)
| ArgNat (n : nat)
| ArgStatus (s : IncidentStatus)
| ArgExn (e : exn).

Inductive Event : Type :=
| CallChat (req : ChatRequest)
| CallList (resource_group_name workspace_name : string)
| CallGet (resource_group_name workspace_name incident_id : string)
| CallCreateOrUpdate (resource_group_name workspace_name incident_id : string)
                     (incident : Incident)
| Log (lvl : Level) (fmt : string) (args : list LogArg).

(** The collaborators, over a world state [W]. *)
Class Collaborators (W : Type) : Type := {
  (** [os.environ.get(k)], [os.getenv(k)] *)
  getenv : string → W → option string;
  (** [load_dotenv()] *)
  load_dotenv : W → W;
  (** [logs_dir.mkdir(...)] and [logging.basicConfig(...)] *)
  logging_setup : W → W * result unit;
  (** whether [import openai] failed, that is [openai is None] *)
  openai_is_None : W → bool;
  (** [openai.api_key = api_key] *)
  openai_set_api_key : string → W → W;
  (** [DefaultAzureCredential()] followed by [credential.get_token(...)] *)
  credential_get_token : W → W * result unit;
  (** [openai.ChatCompletion.create(...)] *)
  ChatCompletion_create : ChatRequest → W → W * result ChatResponse;
  (** [client.incidents.list(...)], iterated to the end *)
  incidents_list : SecurityInsights → string → string → W → W * result (list Incident);
  (** [client.incidents.get(...)] *)
  incidents_get : SecurityInsights → string → string → string → W → W * result (option Incident);
  (** [client.incidents.create_or_update(...)] *)
  incidents_create_or_update :
    SecurityInsights → string → string → string → Incident → W → W * result unit;
}.

Module eff.
Section eff.
Context {W : Type}.

(** A computation: the new world, the events emitted, and the outcome. *)
Definition M (A : Type) : Type := W → W * list Event * result A.

Definition ret {A} (a : A) : M A := λ w, (w, [], Ok a).
Definition raise {A} (e : exn) : M A := λ w, (w, [], Raise e).
Definition emit (ev : Event) : M unit := λ w, (w, [ev], Ok tt).
Definition call {A} (f : W → W * result A) : M A :=
  λ w, let '(w', r) := f w in (w', [], r).
Definition lift {A} (r : result A) : M A := λ w, (w, [], r).
Definition read {A} (f : W → A) : M A := λ w, (w, [], Ok (f w)).
Definition modify (f : W → W) : M unit := λ w, (f w, [], Ok tt).

Definition bind {A B} (m : M A) (k : A → M B) : M B :=
  λ w, match m w with
       | (w1, ev1, Ok a) => let '(w2, ev2, r) := k a w1 in (w2, ev1 ++ ev2, r)
       | (w1, ev1, Raise e) => (w1, ev1, Raise e)
       end.

(** [try: m  except Exception as exc: h exc] *)
Definition try_except {A} (m : M A) (h : exn → M A) : M A :=
  λ w, match m w with
       | (w1, ev1, Ok a) => (w1, ev1, Ok a)
       | (w1, ev1, Raise e) => let '(w2, ev2, r) := h e w1 in (w2, ev1 ++ ev2, r)
       end.

(** [for x in l: body x]; an exception that leaves the body ends the loop. *)
Fixpoint for_each {A} (l : list A) (body : A → M unit) : M unit :=
  match l with
  | [] => ret tt
  | x :: l' => bind (body x) (λ _, for_each l' body)
  end.

(** [logger.info], [logger.warning], [logger.error] *)
Definition log (lvl : Level) (fmt : string) (args : list LogArg) : M unit :=
  emit (Log lvl fmt args).

End eff.
Global Arguments M : clear implicits.
End eff.
Export eff.

Declare Scope eff_scope.
Delimit Scope eff_scope with eff.
Notation "'let!' x ':=' m 'in' k" := (bind m (λ x, k))
  (at level 10, x binder, m at level 100, k at level 200,
   format "'[v' 'let!'  x  ':='  m  'in' '/' k ']'") : eff_scope.
Notation "m ';;' k" := (bind m (λ _, k))
  (at level 100, k at level 200, right associativity) : eff_scope.
Open Scope eff_scope.

(** Projections of a run. *)
Definition world_of {W A} (r : W * list Event * result A) : W := r.1.1.
Definition events_of {W A} (r : W * list Event * result A) : list Event := r.1.2.
Definition outcome_of {W A} (r : W * list Event * result A) : result A := r.2.

(** ** [models.py] *)

Module models.

Record IncidentSummary : Type := {
  id : string;
  title : string;
  description : string;
  severity : string;
  status : string;
}.

Definition as_prompt (self : IncidentSummary) : string :=
  "[" +:+ severity self +:+ "] " +:+ title self +:+ ": " +:+ description self.

End models.

(** ** [llm_client.py] *)

Module llm_client.
Section llm_client.
Context {W : Type} `{!Collaborators W}.

Record LLMClient : Type := {
  model_name : string;
  temperature : QArith_base.Q;
}.

(** [LLMClient.__init__]; the default temperature is 0.2. *)
Definition new_LLMClient (model_name : string) : M W LLMClient :=
  let self := {| model_name := model_name; temperature := QArith_base.Qmake 2 10 |} in
  let! api_key := read (getenv "OPENAI_API_KEY") in
  let! missing := read openai_is_None in
  if missing : bool then
    raise (ImportError
      "openai package is not installed. Install openai or implement a different provider.")
  else if negb (truthy api_key) then
    raise (ValueError "OPENAI_API_KEY environment variable is not set")
  else
    modify (openai_set_api_key (or_str api_key "")) ;;
    ret self.

Definition prompt_of (incident_title incident_description : string) : string :=
  "You are a cybersecurity analyst. A SIEM incident has the following title"
  +:+ " and description:" +:+ String "010" "Title: " +:+ incident_title
  +:+ String "010" "Description: " +:+ incident_description +:+ String "010" ""
  +:+ "Provide a recommended incident status (New, Active or Closed), a brief classification (True Positive, False Positive"
  +:+ ", or Benign) and a one‑sentence comment explaining your decision.".

(** [response.choices[0].message["content"]] *)
Definition first_content (response : ChatResponse) : result string :=
  match choices response with
  | [] => Raise (IndexError "list index out of range")
  | message :: _ =>
      match message !! "content" with
      | Some content => Ok content
      | None => Raise (KeyError "content")
      end
  end.

(** The keyword arguments of the call of lines 55-60. *)
Definition chat_request (self : LLMClient) (prompt : string) : ChatRequest :=
  {| model := model_name self;
     messages := [ {[ "role" := "user"; "content" := prompt ]} ];
     sdk.temperature := temperature self;
     max_tokens := 200 |}.

Definition analyse_incident (self : LLMClient)
    (incident_title incident_description : string) : M W (gmap string string) :=
  let prompt := prompt_of incident_title incident_description in
  try_except
    (emit (CallChat (chat_request self prompt)) ;;
     let! response := call (ChatCompletion_create (chat_request self prompt)) in
     let! content := lift (first_content response) in
     let recommended_status := "Active" in
     let classification := "" in
     let comment := strip content in
     ret {[ "recommended_status" := recommended_status;
            "classification" := classification;
            "comment" := comment ]})
    (λ exc,
       log ERROR "Error invoking LLM: %s" [ArgExn exc] ;;
       ret {[ "recommended_status" := "Active";
              "classification" := "Unspecified";
              "comment" := "LLM analysis failed; leaving incident open." ]}).

End llm_client.
End llm_client.

(** ** [sentinel_client.py] *)

Module sentinel_client.
Section sentinel_client.
Context {W : Type} `{!Collaborators W}.

Definition get_credential : M W unit :=
  try_except
    (call credential_get_token ;;
     log DEBUG "Obtained token using DefaultAzureCredential" [])
    (λ exc,
       log ERROR "Failed to obtain Azure credentials: %s" [ArgExn exc] ;;
       raise exc).

Definition get_sentinel_client (config : SentinelConfig) : M W SecurityInsights :=
  get_credential ;;
  ret {| client_subscription := subscription_id config |}.

(** [incident.properties and incident.properties.status in [NEW, ACTIVE]] *)
Definition is_active (incident : Incident) : bool :=
  match properties incident with
  | Some props => status_eq NEW (status props) || status_eq ACTIVE (status props)
  | None => false
  end.

Definition list_active_incidents (client : SecurityInsights) (config : SentinelConfig)
    : M W (list Incident) :=
  try_except
    (emit (CallList (resource_group config) (workspace_name config)) ;;
     let! pager := call (incidents_list client (resource_group config) (workspace_name config)) in
     let incidents := filter (λ incident, is_active incident = true) pager in
     log INFO "Fetched %d active incidents" [ArgNat (length incidents)] ;;
     ret incidents)
    (λ exc,
       log ERROR "Error listing incidents: %s" [ArgExn exc] ;;
       ret []).

(** The assignments of lines 105-109 on the re-fetched record. *)
Definition modify_properties (props : IncidentProperties) (status : IncidentStatus)
    (classification comment : option string) : IncidentProperties :=
  let props := {| sdk.title := sdk.title props; sdk.description := sdk.description props;
                  sdk.severity := sdk.severity props;
                  sdk.status := StatusMember status;
                  sdk.classification := sdk.classification props;
                  classification_comment := classification_comment props |} in
  let props :=
    if truthy classification
    then {| sdk.title := sdk.title props; sdk.description := sdk.description props;
            sdk.severity := sdk.severity props; sdk.status := sdk.status props;
            sdk.classification := classification;
            classification_comment := classification_comment props |}
    else props in
  if truthy comment
  then {| sdk.title := sdk.title props; sdk.description := sdk.description props;
          sdk.severity := sdk.severity props; sdk.status := sdk.status props;
          sdk.classification := sdk.classification props;
          classification_comment := comment |}
  else props.

Definition update_incident_status (client : SecurityInsights) (config : SentinelConfig)
    (incident : Incident) (status : IncidentStatus)
    (classification comment : option string) : M W unit :=
  try_except
    (emit (CallGet (resource_group config) (workspace_name config) (name incident)) ;;
     let! current :=
       call (incidents_get client (resource_group config) (workspace_name config)
               (name incident)) in
     match current with
     | None => log WARNING "Incident %s not found" [ArgStr (name incident)]
     | Some current =>
         match properties current with
         | None =>
             raise (AttributeError "'NoneType' object has no attribute 'status'")
         | Some props =>
             let current :=
               {| name := name current;
                  properties := Some (modify_properties props status classification comment) |} in
             emit (CallCreateOrUpdate (resource_group config) (workspace_name config)
                     (name current) current) ;;
             call (incidents_create_or_update client (resource_group config)
                     (workspace_name config) (name current) current) ;;
             log INFO "Updated incident %s to status %s with classification %s"
               [ArgStr (name incident); ArgStatus status; ArgOptStr classification]
         end
     end)
    (λ exc,
       log ERROR "Error updating incident %s: %s" [ArgStr (name incident); ArgExn exc]).

End sentinel_client.
End sentinel_client.

(** ** [auto_triage.py] *)

Module auto_triage.
Section auto_triage.
Context {W : Type} `{!Collaborators W}.
Import llm_client sentinel_client.

Definition configure_logging : M W unit := call logging_setup.

Definition load_config : M W SentinelConfig :=
  let! subscription_id := read (getenv "SUBSCRIPTION_ID") in
  let! resource_group := read (getenv "RESOURCE_GROUP") in
  let! workspace_name := read (getenv "WORKSPACE_NAME") in
  if negb (truthy subscription_id && truthy resource_group && truthy workspace_name) then
    raise (EnvironmentError
      "SUBSCRIPTION_ID, RESOURCE_GROUP and WORKSPACE_NAME environment variables must be set")
  else
    ret {| subscription_id := or_str subscription_id "";
           resource_group := or_str resource_group "";
           workspace_name := or_str workspace_name "" |}.

(** [props.severity.name if props.severity else "Unknown"] *)
Definition severity_text (severity : Severity) : result string :=
  match severity with
  | SevNone => Ok "Unknown"
  | SevMember name => Ok name
  | SevStr EmptyString => Ok "Unknown"
  | SevStr (String _ _) => Raise (AttributeError "'str' object has no attribute 'name'")
  end.

(** [props.status.name if props.status else "Unknown"] *)
Definition status_text (status : Status) : result string :=
  match status with
  | StatusNone => Ok "Unknown"
  | StatusMember member => Ok (status_name member)
  | StatusStr EmptyString => Ok "Unknown"
  | StatusStr (String _ _) => Raise (AttributeError "'str' object has no attribute 'name'")
  end.

(** Lines 76-82 of [run_triage]: the summary of one incident. *)
Definition make_summary (inc_name : string) (props : IncidentProperties)
    : result models.IncidentSummary :=
  let title := or_str (sdk.title props) "(no title)" in
  let description := or_str (sdk.description props) "(no description)" in
  match severity_text (sdk.severity props) with
  | Raise e => Raise e
  | Ok severity =>
      match status_text (sdk.status props) with
      | Raise e => Raise e
      | Ok status =>
          Ok {| models.id := inc_name;
                models.title := title;
                models.description := description;
                models.severity := severity;
                models.status := status |}
      end
  end.

(** Lines 90-94: the recommended status text as a store status. *)
Definition map_status (recommended_status : string) : IncidentStatus :=
  if startswith (lower recommended_status) "clos" then CLOSED
  else if startswith (lower recommended_status) "new" then NEW
  else ACTIVE.

(** Lines 85-106: from the model's answer to the action. *)
Definition decide_and_apply (sentinel_client : SecurityInsights) (config : SentinelConfig)
    (inc : Incident) (props : IncidentProperties) (summary : models.IncidentSummary)
    (result : gmap string string) : M W unit :=
  let recommended_status := default "Active" (result !! "recommended_status") in
  let classification := or_None (result !! "classification") in
  let comment := or_None (result !! "comment") in
  let status_enum := map_status recommended_status in
  if negb (status_eq status_enum (sdk.status props)) then
    update_incident_status sentinel_client config inc status_enum classification comment
  else
    log INFO "No status change for incident %s" [ArgStr (models.id summary)].

(** Lines 74-106: the body of the loop of [run_triage]. *)
Definition triage_incident (sentinel_client : SecurityInsights) (config : SentinelConfig)
    (llm_client : LLMClient) (inc : Incident) : M W unit :=
  let! props :=
    match properties inc with
    | Some props => ret props
    | None => raise (AttributeError "'NoneType' object has no attribute 'title'")
    end in
  let! summary := lift (make_summary (name inc) props) in
  log INFO "Processing incident %s" [ArgStr (models.id summary)] ;;
  let! result :=
    analyse_incident llm_client (models.title summary) (models.description summary) in
  decide_and_apply sentinel_client config inc props summary result.

Definition run_triage : M W unit :=
  configure_logging ;;
  modify load_dotenv ;;
  let! config := load_config in
  let! sentinel_client := get_sentinel_client config in
  let! llm_client :=
    try_except
      (let! model := read (getenv "LLM_MODEL") in
       let! client := new_LLMClient (default "gpt-4" model) in
       ret (Some client))
      (λ exc,
         log ERROR "LLM client could not be initialised: %s" [ArgExn exc] ;;
         ret None) in
  match llm_client with
  | None => ret tt
  | Some llm_client =>
      let! incidents := list_active_incidents sentinel_client config in
      for_each incidents (triage_incident sentinel_client config llm_client)
  end.

(** The script's entry point, lines 109-113. *)
Definition main : M W unit :=
  try_except run_triage
    (λ general_exc,
       log ERROR "Unhandled exception in triage script: %s" [ArgExn general_exc]).

End auto_triage.
End auto_triage.

(** ** A scripted world

    An instance of the collaborators with an in-memory incident store, a
    script of model replies and faults that can be planted on each call. *)

Module sim.

Record World : Type := {
  environ : gmap string string;
  dotenv : gmap string string;
  openai_installed : bool;
  api_key : option string;
  logging_fault : option exn;
  credential_fault : option exn;
  replies : list (result ChatResponse);
  store : list Incident;
  list_fault : option exn;
  get_faults : gmap string exn;
  update_faults : gmap string exn;
}.

Definition set_environ (e : gmap string string) (w : World) : World :=
  {| environ := e; dotenv := dotenv w; openai_installed := openai_installed w;
     api_key := api_key w; logging_fault := logging_fault w;
     credential_fault := credential_fault w; replies := replies w; store := store w;
     list_fault := list_fault w; get_faults := get_faults w;
     update_faults := update_faults w |}.

Definition set_api_key (k : string) (w : World) : World :=
  {| environ := environ w; dotenv := dotenv w; openai_installed := openai_installed w;
     api_key := Some k; logging_fault := logging_fault w;
     credential_fault := credential_fault w; replies := replies w; store := store w;
     list_fault := list_fault w; get_faults := get_faults w;
     update_faults := update_faults w |}.

Definition set_replies (r : list (result ChatResponse)) (w : World) : World :=
  {| environ := environ w; dotenv := dotenv w; openai_installed := openai_installed w;
     api_key := api_key w; logging_fault := logging_fault w;
     credential_fault := credential_fault w; replies := r; store := store w;
     list_fault := list_fault w; get_faults := get_faults w;
     update_faults := update_faults w |}.

Definition set_store (st : list Incident) (w : World) : World :=
  {| environ := environ w; dotenv := dotenv w; openai_installed := openai_installed w;
     api_key := api_key w; logging_fault := logging_fault w;
     credential_fault := credential_fault w; replies := replies w; store := st;
     list_fault := list_fault w; get_faults := get_faults w;
     update_faults := update_faults w |}.

Definition set_get_faults (f : gmap string exn) (w : World) : World :=
  {| environ := environ w; dotenv := dotenv w; openai_installed := openai_installed w;
     api_key := api_key w; logging_fault := logging_fault w;
     credential_fault := credential_fault w; replies := replies w; store := store w;
     list_fault := list_fault w; get_faults := f;
     update_faults := update_faults w |}.

Definition set_update_faults (f : gmap string exn) (w : World) : World :=
  {| environ := environ w; dotenv := dotenv w; openai_installed := openai_installed w;
     api_key := api_key w; logging_fault := logging_fault w;
     credential_fault := credential_fault w; replies := replies w; store := store w;
     list_fault := list_fault w; get_faults := get_faults w;
     update_faults := f |}.

Definition outcome (fault : option exn) : result unit :=
  match fault with Some e => Raise e | None => Ok tt end.

Definition next_reply (w : World) : World * result ChatResponse :=
  match replies w with
  | [] => (w, Raise (ServiceError "no reply"))
  | r :: rs => (set_replies rs w, r)
  end.

Definition lookup_incident (incident_id : string) (st : list Incident) : option Incident :=
  List.find (λ i, bool_decide (name i = incident_id)) st.

Fixpoint put_incident (incident_id : string) (inc : Incident) (st : list Incident)
    : list Incident :=
  match st with
  | [] => [inc]
  | i :: st' =>
      if decide (name i = incident_id) then inc :: st'
      else i :: put_incident incident_id inc st'
  end.

Global Instance collaborators : Collaborators World := {|
  getenv k w := environ w !! k;
  load_dotenv w := set_environ (environ w ∪ dotenv w) w;
  logging_setup w := (w, outcome (logging_fault w));
  openai_is_None w := negb (openai_installed w);
  openai_set_api_key := set_api_key;
  credential_get_token w := (w, outcome (credential_fault w));
  ChatCompletion_create _ := next_reply;
  incidents_list _ _ _ w :=
    (w, match list_fault w with Some e => Raise e | None => Ok (store w) end);
  incidents_get _ _ _ incident_id w :=
    (w, match get_faults w !! incident_id with
        | Some e => Raise e
        | None => Ok (lookup_incident incident_id (store w))
        end);
  incidents_create_or_update _ _ _ incident_id inc w :=
    match update_faults w !! incident_id with
    | Some e => (w, Raise e)
    | None => (set_store (put_incident incident_id inc (store w)) w, Ok tt)
    end;
|}.

(** A configured world with the given store and model replies. *)
Definition configured (st : list Incident) (rs : list (result ChatResponse)) : World :=
  {| environ := {[ "SUBSCRIPTION_ID" := "sub"; "RESOURCE_GROUP" := "rg";
                   "WORKSPACE_NAME" := "ws"; "OPENAI_API_KEY" := "sk-test" ]};
     dotenv := ∅; openai_installed := true; api_key := None;
     logging_fault := None; credential_fault := None;
     replies := rs; store := st; list_fault := None;
     get_faults := ∅; update_faults := ∅ |}.

Definition reply (content : string) : result ChatResponse :=
  Ok {| choices := [ {[ "role" := "assistant"; "content" := content ]} ] |}.

Definition client : SecurityInsights := {| client_subscription := "sub" |}.
Definition config : SentinelConfig :=
  {| subscription_id := "sub"; resource_group := "rg"; workspace_name := "ws" |}.
Definition llm : llm_client.LLMClient :=
  {| llm_client.model_name := "gpt-4";
     llm_client.temperature := QArith_base.Qmake 2 10 |}.

Definition props (title : option string) (sev : Severity) (st : option IncidentStatus)
    : IncidentProperties :=
  {| title := title; description := Some "Multiple failed attempts";
     severity := sev; status := from_option StatusMember StatusNone st;
     classification := None; classification_comment := None |}.

Definition incident (id : string) (title : option string) (sev : Severity)
    (st : option IncidentStatus) : Incident :=
  {| name := id; properties := Some (props title sev st) |}.

Definition summary (id status : string) : models.IncidentSummary :=
  {| models.id := id; models.title := "Suspicious login";
     models.description := "Multiple failed attempts";
     models.severity := "HIGH"; models.status := status |}.

(** An incident that an analyst has already classified. *)
Definition noted : IncidentProperties :=
  {| title := Some "Suspicious login"; description := Some "Multiple failed attempts";
     severity := SevMember "HIGH"; status := StatusMember NEW;
     classification := Some "TruePositive";
     classification_comment := Some "analyst note" |}.
Definition inc4 : Incident := {| name := "inc-4"; properties := Some noted |}.

Definition inc1 : Incident :=
  incident "inc-1" (Some "Suspicious login") (SevMember "HIGH") (Some NEW).
Definition inc2 : Incident := incident "inc-2" None SevNone (Some NEW).
Definition inc3 : Incident :=
  incident "inc-3" (Some "Port scan") (SevMember "LOW") (Some ACTIVE).
Definition inc_odd : Incident :=
  incident "inc-0" (Some "Odd severity") (SevStr "Critical") (Some NEW).

Definition rate_limit : exn := ServiceError "rate limit".
Definition timeout : exn := ServiceError "timeout".

(** The model is down and the store times out on "inc-2". *)
Definition degraded : World :=
  set_get_faults {[ "inc-2" := timeout ]}
    (configured [inc1; inc2] [Raise rate_limit; reply "Closed, Benign."]).

(** Worlds in which the set-up goes wrong. *)
Definition faulty (openai : bool) (credentials listing : option exn) (w : World) : World :=
  {| environ := environ w; dotenv := dotenv w; openai_installed := openai;
     api_key := api_key w; logging_fault := logging_fault w;
     credential_fault := credentials; replies := replies w; store := store w;
     list_fault := listing; get_faults := get_faults w;
     update_faults := update_faults w |}.

Definition half_configured : World :=
  set_environ {[ "SUBSCRIPTION_ID" := "sub"; "RESOURCE_GROUP" := "";
                 "OPENAI_API_KEY" := "sk-test" ]}
    (configured [inc1] [reply "Benign."]).

Definition without_openai : World :=
  faulty false None None
    (set_environ {[ "SUBSCRIPTION_ID" := "sub"; "RESOURCE_GROUP" := "rg";
                    "WORKSPACE_NAME" := "ws" ]}
       (configured [inc1] [reply "Benign."])).

Definition without_key : World :=
  set_environ {[ "SUBSCRIPTION_ID" := "sub"; "RESOURCE_GROUP" := "rg";
                 "WORKSPACE_NAME" := "ws"; "OPENAI_API_KEY" := "" ]}
    (configured [inc1] [reply "Benign."]).

Definition no_credentials : exn := ServiceError "no credentials".

Definition without_credentials : World :=
  faulty true (Some no_credentials) None (configured [inc1] [reply "Benign."]).

Definition inc_closed : Incident :=
  incident "inc-5" (Some "Old alert") (SevMember "LOW") (Some CLOSED).
Definition inc_bare : Incident := {| name := "inc-6"; properties := None |}.
Definition inc_unset : Incident := incident "inc-7" None SevNone None.

End sim.

(** ** Vocabulary of the statements *)

(** [s] starts with [p]. *)
Definition has_prefix (p s : string) : Prop := ∃ rest, s = p +:+ rest.

(** [s] neither starts nor ends with white space. *)
Definition trimmed (s : string) : Prop := lstrip s = s ∧ rstrip s = s.

Global Instance LogArg_eq_dec : EqDecision LogArg.
Proof. solve_decision. Defined.

(** The log record [ev] carries both [a] and [b]. *)
Definition mentions_both (a b : LogArg) (ev : Event) : bool :=
  match ev with
  | Log _ _ args => bool_decide (a ∈ args) && bool_decide (b ∈ args)
  | _ => false
  end.

(** Some log record of [evs] carries both [a] and [b]. *)
Definition logged_together (a b : LogArg) (evs : list Event) : bool :=
  existsb (mentions_both a b) evs.

(** A call on the incident store made by update application. *)
Definition is_store_call (ev : Event) : bool :=
  match ev with
  | CallGet _ _ _ | CallCreateOrUpdate _ _ _ _ => true
  | _ => false
  end.

Definition is_write (ev : Event) : bool :=
  match ev with
  | CallCreateOrUpdate _ _ _ _ => true
  | _ => false
  end.

(** The incident announced by a record "Processing incident %s". *)
Definition processing_id (ev : Event) : option string :=
  match ev with
  | Log INFO fmt [ArgStr id] =>
      if decide (fmt = "Processing incident %s") then Some id else None
  | _ => None
  end.

(** The incidents whose processing started, in order. *)
Definition processed (evs : list Event) : list string := omap processing_id evs.

(** Summary construction succeeds on [inc]. *)
Definition summarisable (inc : Incident) : Prop :=
  ∃ props summary,
    properties inc = Some props ∧ auto_triage.make_summary (name inc) props = Ok summary.

(** The status carried by a submitted record. *)
Definition written_status (ev : Event) : option IncidentStatus :=
  match ev with
  | CallCreateOrUpdate _ _ _ incident =>
      match properties incident with
      | Some {| status := StatusMember member |} => Some member
      | _ => None
      end
  | _ => None
  end.

(** The record "Error invoking LLM: %s". *)
Definition llm_error (e : exn) : Event := Log ERROR "Error invoking LLM: %s" [ArgExn e].

(** The record "Error updating incident %s: %s". *)
Definition update_error (incident_id : string) (e : exn) : Event :=
  Log ERROR "Error updating incident %s: %s" [ArgStr incident_id; ArgExn e].

(** The member of the status enumeration that the record [inc] carries,
    if it carries one. *)
Definition listed_status (inc : Incident) : option IncidentStatus :=
  match properties inc with
  | Some {| status := StatusMember member |} => Some member
  | _ => None
  end.

(** What one iteration of the loop on [inc], run with the placeholder
    parser, may emit: store calls only when the listed status is not
    Active, re-fetches of [inc] itself, writes of status Active, and the
    two kinds of error records. *)
Definition iteration_event (inc : Incident) (ev : Event) : Prop :=
  match ev with
  | CallGet _ _ incident_id =>
      incident_id = name inc ∧ listed_status inc ≠ Some ACTIVE
  | CallCreateOrUpdate _ _ _ _ =>
      written_status ev = Some ACTIVE ∧ listed_status inc ≠ Some ACTIVE
  | Log ERROR _ _ =>
      (∃ e, ev = llm_error e) ∨ (∃ e, ev = update_error (name inc) e)
  | _ => True
  end.

(** The calls on the store among [evs], in order. *)
Definition store_calls (evs : list Event) : list Event := List.filter is_store_call evs.

(** The store calls of one update attempt on [inc] that moves it to Active:
    the re-fetch of [inc], followed by at most one submitted record, which
    carries status Active. *)
Definition activation_attempt (inc : Incident) (calls : list Event) : Prop :=
  ∃ rg ws,
    calls = [CallGet rg ws (name inc)] ∨
    ∃ incident_id record,
      calls = [CallGet rg ws (name inc); CallCreateOrUpdate rg ws incident_id record] ∧
      listed_status record = Some ACTIVE.

(** The member [member] and the status [status] are equal for Python. *)
Definition same_status (member : IncidentStatus) (status : Status) : Prop :=
  status = StatusMember member ∨ status = StatusStr (status_value member).

Section pass_vocabulary.
Context {W : Type} `{!Collaborators W}.

(** Lines 58-70 of [run_triage]: what a pass does before it lists the
    incidents.  The result is the configuration and the two clients, or
    [None] when the model client could not be built. *)
Definition set_up
    : M W (option (SentinelConfig * SecurityInsights * llm_client.LLMClient)) :=
  auto_triage.configure_logging ;;
  modify load_dotenv ;;
  let! config := auto_triage.load_config in
  let! sentinel_client := sentinel_client.get_sentinel_client config in
  let! llm_client :=
    try_except
      (let! model := read (getenv "LLM_MODEL") in
       let! client := llm_client.new_LLMClient (default "gpt-4" model) in
       ret (Some client))
      (λ exc,
         log ERROR "LLM client could not be initialised: %s" [ArgExn exc] ;;
         ret None) in
  ret (match llm_client with
       | Some llm_client => Some (config, sentinel_client, llm_client)
       | None => None
       end).

(** Lines 72-106 of [run_triage]: the listing and the loop. *)
Definition triage_listed
    (ready : option (SentinelConfig * SecurityInsights * llm_client.LLMClient))
    : M W unit :=
  match ready with
  | None => ret tt
  | Some (config, sentinel_client, llm_client) =>
      let! incidents := sentinel_client.list_active_incidents sentinel_client config in
      for_each incidents (auto_triage.triage_incident sentinel_client config llm_client)
  end.

(** The records that the store returns to the pass started in [w], when
    the pass gets as far as the listing and the listing succeeds; no record
    otherwise. *)
Definition listing (w : W) : list Incident :=
  match set_up w with
  | (w0, _, Ok (Some (config, sentinel_client, _))) =>
      match incidents_list sentinel_client (resource_group config)
              (workspace_name config) w0 with
      | (_, Ok pager) => pager
      | (_, Raise _) => []
      end
  | _ => []
  end.

End pass_vocabulary.

(** The records submitted to the store: incident id and status, in order. *)
Definition writes (evs : list Event) : list (string * option IncidentStatus) :=
  omap (λ ev, match ev with
              | CallCreateOrUpdate _ _ incident_id incident =>
                  Some (incident_id, listed_status incident)
              | _ => None
              end) evs.

(** The incidents re-fetched from the store, in order. *)
Definition refetched (evs : list Event) : list string :=
  omap (λ ev, match ev with
              | CallGet _ _ incident_id => Some incident_id
              | _ => None
              end) evs.

(** The number of calls of the model provider. *)
Definition chat_calls (evs : list Event) : nat :=
  length (List.filter (λ ev, match ev with CallChat _ => true | _ => false end) evs).

(** The records logged at level ERROR. *)
Definition error_records (evs : list Event) : list Event :=
  List.filter (λ ev, match ev with Log ERROR _ _ => true | _ => false end) evs.

(** The dictionary returned when the model could not be consulted. *)
Definition safe_default : gmap string string :=
  {[ "recommended_status" := "Active";
     "classification" := "Unspecified";
     "comment" := "LLM analysis failed; leaving incident open." ]}.

(** The dictionary returned for a reply whose text is [content]. *)
Definition placeholder (content : string) : gmap string string :=
  {[ "recommended_status" := "Active";
     "classification" := "";
     "comment" := strip content ]}.

(** * Properties *)

(** ** Strings *)

Lemma startswith_has_prefix (s p : string) : startswith s p = true ↔ has_prefix p s.
Proof.
  revert s. induction p as [|a p IH]; intros s; simpl.
  - split; [intros _; by exists s | done].
  - destruct s as [|b s].
    + split; [done | intros [rest H]; discriminate H].
    + case_decide as Hab.
      * subst b. rewrite IH. split.
        -- intros [rest ->]. by exists rest.
        -- intros [rest H]. exists rest. by injection H.
      * split; [done | intros [rest H]]. injection H as -> _. done.
Qed.

Lemma app_String (c : ascii) (s t : string) : String c s +:+ t = String c (s +:+ t).
Proof. reflexivity. Qed.

Lemma app_string_assoc (s t u : string) : (s +:+ t) +:+ u = s +:+ (t +:+ u).
Proof. induction s as [|c s IH]; [done|]. by rewrite !app_String, IH. Qed.

Lemma app_string_length (s t : string) :
  String.length (s +:+ t) = String.length s + String.length t.
Proof. induction s as [|c s IH]; [done|]. rewrite app_String. simpl. by rewrite IH. Qed.

Lemma string_length_ind (P : string → Prop) :
  (∀ s, (∀ t, String.length t < String.length s → P t) → P s) → ∀ s, P s.
Proof.
  intros Hstep s. remember (String.length s) as n eqn:Hn.
  revert s Hn. induction (lt_wf n) as [n _ IH]. intros s ->.
  apply Hstep. intros t Ht. by apply (IH _ Ht).
Qed.

Lemma lstrip_unfold (s : string) :
  lstrip s = match leading_space s with Some r => lstrip r | None => s end.
Proof.
  destruct s as [|c1 [|c2 [|c3 s3]]]; simpl; try done.
  - by destruct (space1 c1).
  - destruct (space1 c1); [done|]. by destruct (space2 c1 c2).
  - destruct (space1 c1); [done|]. destruct (space2 c1 c2); [done|].
    by destruct (space3 c1 c2 c3).
Qed.

Lemma leading_space_split (s r : string) :
  leading_space s = Some r →
  ∃ sp, s = sp +:+ r ∧ leading_space sp = Some "" ∧ 0 < String.length sp.
Proof.
  destruct s as [|c1 [|c2 [|c3 s3]]]; simpl; try done.
  - destruct (space1 c1) eqn:H1; [|done]. intros [= <-].
    exists (String c1 ""). simpl. rewrite H1. split_and!; [done|done|lia].
  - destruct (space1 c1) eqn:H1.
    + intros [= <-]. exists (String c1 ""). simpl. rewrite H1. split_and!; [done|done|lia].
    + destruct (space2 c1 c2) eqn:H2; [|done]. intros [= <-].
      exists (String c1 (String c2 "")). simpl. rewrite H1, H2. split_and!; [done|done|lia].
  - destruct (space1 c1) eqn:H1.
    + intros [= <-]. exists (String c1 ""). simpl. rewrite H1. split_and!; [done|done|lia].
    + destruct (space2 c1 c2) eqn:H2.
      * intros [= <-]. exists (String c1 (String c2 "")). simpl. rewrite H1, H2.
        split_and!; [done|done|lia].
      * destruct (space3 c1 c2 c3) eqn:H3; [|done]. intros [= <-].
        exists (String c1 (String c2 (String c3 ""))). simpl. rewrite H1, H2, H3.
        split_and!; [done|done|lia].
Qed.

Lemma leading_space_app (s r t : string) :
  leading_space s = Some r → leading_space (s +:+ t) = Some (r +:+ t).
Proof.
  destruct s as [|c1 [|c2 [|c3 s3]]]; simpl; try done.
  - destruct (space1 c1); [|done]. by intros [= <-].
  - rewrite !app_String. simpl. destruct (space1 c1); [by intros [= <-]|].
    destruct (space2 c1 c2); [|done]. by intros [= <-].
  - rewrite !app_String. simpl. destruct (space1 c1); [by intros [= <-]|].
    destruct (space2 c1 c2); [by intros [= <-]|].
    destruct (space3 c1 c2 c3); [|done]. by intros [= <-].
Qed.

Lemma leading_space_shorter (s r : string) :
  leading_space s = Some r → String.length r < String.length s.
Proof.
  intros (sp & -> & _ & Hsp)%leading_space_split. rewrite app_string_length. lia.
Qed.

Lemma all_space_lstrip (s : string) : all_space s = true ↔ lstrip s = "".
Proof. unfold all_space. by destruct (lstrip s). Qed.

Lemma lstrip_app_space (a b : string) :
  all_space a = true → lstrip (a +:+ b) = lstrip b.
Proof.
  induction a as [a IH] using string_length_ind. intros Ha%all_space_lstrip.
  rewrite lstrip_unfold in Ha.
  destruct (leading_space a) as [r|] eqn:Hlead.
  - rewrite (lstrip_unfold (a +:+ b)), (leading_space_app _ _ b Hlead).
    apply IH; [by apply leading_space_shorter|by apply all_space_lstrip].
  - by subst a.
Qed.

Lemma all_space_app (a b : string) :
  all_space a = true → all_space b = true → all_space (a +:+ b) = true.
Proof.
  intros Ha Hb. apply all_space_lstrip. rewrite (lstrip_app_space a b Ha).
  by apply all_space_lstrip.
Qed.

Lemma lstrip_split (s : string) :
  ∃ pre, s = pre +:+ lstrip s ∧ all_space pre = true.
Proof.
  induction s as [s IH] using string_length_ind.
  rewrite lstrip_unfold.
  destruct (leading_space s) as [r|] eqn:Hlead; [|by exists ""].
  destruct (leading_space_split _ _ Hlead) as (sp & -> & Hsp & _).
  destruct (IH r (leading_space_shorter _ _ Hlead)) as (pre & Hr & Hpre).
  exists (sp +:+ pre). split.
  - by rewrite app_string_assoc, <- Hr.
  - apply all_space_app; [|done]. apply all_space_lstrip.
    by rewrite lstrip_unfold, Hsp.
Qed.

Lemma lstrip_shorter (s : string) : String.length (lstrip s) ≤ String.length s.
Proof.
  destruct (lstrip_split s) as (pre & Heq & _).
  rewrite Heq at 2. rewrite app_string_length. lia.
Qed.

Lemma lstrip_fixed (s : string) : lstrip s = s ↔ leading_space s = None.
Proof.
  rewrite lstrip_unfold. destruct (leading_space s) as [r|] eqn:Hlead; [|done].
  split; [|done]. intros Heq.
  pose proof (lstrip_shorter r) as H1. pose proof (leading_space_shorter _ _ Hlead) as H2.
  rewrite Heq in H1. lia.
Qed.

Lemma lstrip_idempotent (s : string) : lstrip (lstrip s) = lstrip s.
Proof.
  induction s as [s IH] using string_length_ind.
  rewrite (lstrip_unfold s).
  destruct (leading_space s) as [r|] eqn:Hlead.
  - apply IH. by apply leading_space_shorter.
  - by apply lstrip_fixed.
Qed.

Lemma rstrip_empty (s : string) : rstrip s = "" ↔ all_space s = true.
Proof.
  destruct s as [|c s]; [done|]. simpl rstrip.
  by destruct (all_space (String c s)).
Qed.

Lemma rstrip_split (s : string) :
  ∃ post, s = rstrip s +:+ post ∧ all_space post = true.
Proof.
  induction s as [|c s (post & Heq & Hpost)]; [by exists ""|].
  simpl rstrip. destruct (all_space (String c s)) eqn:Hall.
  - by exists (String c s).
  - exists post. by rewrite app_String, <- Heq.
Qed.

Lemma rstrip_idempotent (s : string) : rstrip (rstrip s) = rstrip s.
Proof.
  induction s as [|c s IH]; [done|].
  simpl rstrip at 2 3. destruct (all_space (String c s)) eqn:Hall; [done|].
  simpl rstrip. rewrite IH.
  destruct (all_space (String c (rstrip s))) eqn:Hall'; [|done].
  destruct (rstrip_split s) as (post & Heq & Hpost).
  pose proof (all_space_app _ _ Hall' Hpost) as Habs.
  rewrite app_String, <- Heq in Habs. congruence.
Qed.

Lemma strip_split (s : string) :
  ∃ pre post, s = pre +:+ strip s +:+ post ∧ all_space pre = true ∧ all_space post = true.
Proof.
  destruct (lstrip_split s) as [pre [H1 Hpre]].
  destruct (rstrip_split (lstrip s)) as [post [H2 Hpost]].
  exists pre, post. unfold strip. by rewrite <- H2.
Qed.

Lemma strip_is_trimmed (s : string) : trimmed (strip s).
Proof.
  unfold trimmed, strip. split; [|apply rstrip_idempotent].
  apply lstrip_fixed.
  destruct (leading_space (rstrip (lstrip s))) as [r|] eqn:Hlead; [|done].
  destruct (rstrip_split (lstrip s)) as (post & Heq & _).
  apply (leading_space_app _ _ post) in Hlead. rewrite <- Heq in Hlead.
  pose proof (proj1 (lstrip_fixed (lstrip s)) (lstrip_idempotent s)) as Hnone.
  congruence.
Qed.

Lemma strip_empty (s : string) : strip s = "" ↔ all_space s = true.
Proof.
  unfold strip. rewrite rstrip_empty, !all_space_lstrip.
  by rewrite lstrip_idempotent.
Qed.

Lemma strip_trimmed (s : string) : trimmed s → strip s = s.
Proof. intros [H1 H2]. unfold strip. by rewrite H1. Qed.

Lemma clos_new_exclusive (s : string) : has_prefix "clos" s → has_prefix "new" s → False.
Proof. intros [r1 ->] [r2 H]. discriminate H. Qed.

(** ** The decision policy's status mapping *)

(** C2: the recommended-status text is mapped by prefix matching on its
    lowercase form: exactly the texts starting with "clos" give Closed,
    exactly those starting with "new" give New, and exactly the others give
    Active; texts with the same lowercase form are mapped alike. *)
Theorem map_status_prefix_matching (text : string) :
  (auto_triage.map_status text = CLOSED ↔ has_prefix "clos" (lower text)) ∧
  (auto_triage.map_status text = NEW ↔ has_prefix "new" (lower text)) ∧
  (auto_triage.map_status text = ACTIVE ↔
     ¬ has_prefix "clos" (lower text) ∧ ¬ has_prefix "new" (lower text)) ∧
  (∀ text', lower text' = lower text →
     auto_triage.map_status text' = auto_triage.map_status text).
Proof.
  unfold auto_triage.map_status.
  assert (Hc := startswith_has_prefix (lower text) "clos").
  assert (Hn := startswith_has_prefix (lower text) "new").
  assert (Hx := clos_new_exclusive (lower text)).
  split_and!; [| | | by intros text' ->];
    destruct (startswith (lower text) "clos"), (startswith (lower text) "new");
    intuition congruence.
Qed.

Lemma map_status_prefix_matching_witness :
  auto_triage.map_status "Closed due to benign activity" = CLOSED ∧
  auto_triage.map_status "NEW alert" = NEW ∧
  auto_triage.map_status "Unknown" = ACTIVE ∧
  auto_triage.map_status "aCtIvE" = auto_triage.map_status "Active".
Proof.
  split; [|split; [|split]].
  - apply (proj1 (map_status_prefix_matching "Closed due to benign activity")).
    by exists "ed due to benign activity".
  - apply (proj1 (proj2 (map_status_prefix_matching "NEW alert"))).
    by exists " alert".
  - apply (proj1 (proj2 (proj2 (map_status_prefix_matching "Unknown")))).
    split; intros [rest H]; discriminate H.
  - apply (proj2 (proj2 (proj2 (map_status_prefix_matching "Active")))).
    reflexivity.
Defined.

(** ** Summary construction *)

(** C10 (as amended): the summary of a raw record whose severity and
    status are each absent or an enumeration member always exists; an
    absent or empty title gives "(no title)", an absent or empty
    description "(no description)", an absent severity or status
    "Unknown"; a non-empty title or description is carried through
    unchanged and a severity or status member is rendered as its name. *)
Theorem make_summary_defaulting (inc_name : string) (props : IncidentProperties) :
  (sdk.severity props = SevNone ∨ ∃ n, sdk.severity props = SevMember n) →
  (sdk.status props = StatusNone ∨ ∃ m, sdk.status props = StatusMember m) →
  ∃ summary,
    auto_triage.make_summary inc_name props = Ok summary ∧
    models.id summary = inc_name ∧
    (sdk.title props = None ∨ sdk.title props = Some "" →
       models.title summary = "(no title)") ∧
    (∀ t, sdk.title props = Some t → t ≠ "" → models.title summary = t) ∧
    (sdk.description props = None ∨ sdk.description props = Some "" →
       models.description summary = "(no description)") ∧
    (∀ d, sdk.description props = Some d → d ≠ "" → models.description summary = d) ∧
    (sdk.severity props = SevNone → models.severity summary = "Unknown") ∧
    (∀ n, sdk.severity props = SevMember n → models.severity summary = n) ∧
    (sdk.status props = StatusNone → models.status summary = "Unknown") ∧
    (∀ st, sdk.status props = StatusMember st → models.status summary = status_name st).
Proof.
  intros Hsev Hstatus. unfold auto_triage.make_summary.
  destruct props as [t d sev st c cc]; simpl in *.
  assert (∃ text, auto_triage.severity_text sev = Ok text ∧
                  (sev = SevNone → text = "Unknown") ∧
                  (∀ n, sev = SevMember n → text = n)) as (text & -> & H1 & H2).
  { destruct Hsev as [-> | [n ->]]; simpl; eexists; split_and!; try done; congruence. }
  assert (∃ text', auto_triage.status_text st = Ok text' ∧
                   (st = StatusNone → text' = "Unknown") ∧
                   (∀ m, st = StatusMember m → text' = status_name m))
    as (text' & -> & H3 & H4).
  { destruct Hstatus as [-> | [m ->]]; simpl; eexists; split_and!; try done; congruence. }
  eexists; split; [reflexivity|]; simpl. split_and!; try done.
  - by intros [-> | ->].
  - intros t' -> Ht. by destruct t'.
  - by intros [-> | ->].
  - intros d' -> Hd. by destruct d'.
Qed.

Lemma make_summary_defaulting_witness :
  ∃ summary,
    auto_triage.make_summary "inc-1"
      {| sdk.title := Some "Suspicious login"; sdk.description := None;
         sdk.severity := SevMember "HIGH"; sdk.status := StatusMember NEW;
         classification := None; classification_comment := None |} = Ok summary
    ∧ models.title summary = "Suspicious login"
    ∧ models.description summary = "(no description)"
    ∧ models.severity summary = "HIGH"
    ∧ models.status summary = "NEW".
Proof.
  destruct (make_summary_defaulting "inc-1"
      {| sdk.title := Some "Suspicious login"; sdk.description := None;
         sdk.severity := SevMember "HIGH"; sdk.status := StatusMember NEW;
         classification := None; classification_comment := None |})
    as (summary & Heq & _ & _ & Ht & Hd & _ & _ & Hs & _ & Hst).
  - right. by exists "HIGH".
  - right. by exists NEW.
  - exists summary. split; [exact Heq|]. split_and!.
    + by apply Ht.
    + apply Hd. by left.
    + by apply Hs.
    + by apply (Hst NEW).
Defined.

(** C10, as stated, fails: a title that is present but empty is replaced by
    the placeholder, and a severity or a status that is a non-empty plain
    string makes the construction raise. *)
Lemma make_summary_defaulting_counterexample :
  (∃ summary,
     auto_triage.make_summary "inc-1"
       {| sdk.title := Some ""; sdk.description := Some "Multiple failed attempts";
          sdk.severity := SevMember "HIGH"; sdk.status := StatusMember NEW;
          classification := None; classification_comment := None |} = Ok summary
     ∧ models.title summary = "(no title)" ∧ models.title summary ≠ "") ∧
  auto_triage.make_summary "inc-2"
    {| sdk.title := Some "Suspicious login"; sdk.description := None;
       sdk.severity := SevStr "Critical"; sdk.status := StatusMember NEW;
       classification := None; classification_comment := None |}
  = Raise (AttributeError "'str' object has no attribute 'name'") ∧
  auto_triage.make_summary "inc-3"
    {| sdk.title := Some "Suspicious login"; sdk.description := None;
       sdk.severity := SevMember "HIGH"; sdk.status := StatusStr "New";
       classification := None; classification_comment := None |}
  = Raise (AttributeError "'str' object has no attribute 'name'").
Proof.
  split; [eexists; split; [reflexivity|]; by split|]. by split.
Qed.

Section services.
Context {W : Type} `{!Collaborators W}.
Import llm_client sentinel_client auto_triage.

(** ** Model invocation *)

Lemma analyse_incident_run (self : LLMClient) (t d : string) (w : W) :
  analyse_incident self t d w =
    let req := chat_request self (prompt_of t d) in
    match ChatCompletion_create req w with
    | (w1, Ok response) =>
        match first_content response with
        | Ok content => (w1, [CallChat req], Ok (placeholder content))
        | Raise e => (w1, [CallChat req; llm_error e], Ok safe_default)
        end
    | (w1, Raise e) => (w1, [CallChat req; llm_error e], Ok safe_default)
    end.
Proof.
  cbv [analyse_incident try_except bind emit call lift ret log app].
  destruct (ChatCompletion_create _ w) as [w1 [response|e]]; [|reflexivity].
  by destruct (first_content response).
Qed.

(** C3: when the model invocation raises, [analyse_incident] returns the
    safe default, whatever the title and the description: status
    "Active", classification "Unspecified" and a non-empty comment. *)
Theorem analyse_incident_provider_failure (self : LLMClient)
    (incident_title incident_description : string) (w w' : W) (e : exn) :
  ChatCompletion_create
    (chat_request self (prompt_of incident_title incident_description)) w
    = (w', Raise e) →
  ∃ recommendation comment,
    outcome_of (analyse_incident self incident_title incident_description w)
      = Ok recommendation ∧
    recommendation !! "recommended_status" = Some "Active" ∧
    recommendation !! "classification" = Some "Unspecified" ∧
    recommendation !! "comment" = Some comment ∧ comment ≠ "" ∧
    events_of (analyse_incident self incident_title incident_description w)
      = [CallChat (chat_request self (prompt_of incident_title incident_description));
         llm_error e].
Proof.
  intros Hfail. rewrite analyse_incident_run. simpl. rewrite Hfail.
  exists safe_default, "LLM analysis failed; leaving incident open.".
  by split_and!.
Qed.

(** C6 (as amended): on the success path the parser returns status
    "Active", an empty classification and, as comment, the model reply
    with its leading and trailing white space stripped: the reply is the
    comment between two runs of white space, and the comment itself
    neither starts nor ends with white space.  A reply without such white
    space is stored whole. *)
Theorem analyse_incident_placeholder (self : LLMClient)
    (incident_title incident_description : string) (w w' : W)
    (response : ChatResponse) (content : string) :
  ChatCompletion_create
    (chat_request self (prompt_of incident_title incident_description)) w
    = (w', Ok response) →
  first_content response = Ok content →
  ∃ recommendation,
    outcome_of (analyse_incident self incident_title incident_description w)
      = Ok recommendation ∧
    recommendation !! "recommended_status" = Some "Active" ∧
    recommendation !! "classification" = Some "" ∧
    recommendation !! "comment" = Some (strip content) ∧
    (∃ pre post, content = pre +:+ strip content +:+ post ∧
                 all_space pre = true ∧ all_space post = true) ∧
    trimmed (strip content) ∧
    (trimmed content → recommendation !! "comment" = Some content).
Proof.
  intros Hok Hcontent. rewrite analyse_incident_run. cbv zeta.
  rewrite Hok, Hcontent. exists (placeholder content).
  split_and!; try done.
  - apply strip_split.
  - apply strip_is_trimmed.
  - intros Htrim. by rewrite <- (strip_trimmed content Htrim) at 2.
Qed.

(** ** Update application *)

Lemma update_incident_status_run (client : SecurityInsights) (config : SentinelConfig)
    (inc : Incident) (st : IncidentStatus) (cl cm : option string) (w : W) :
  update_incident_status client config inc st cl cm w =
    let rg := resource_group config in
    let ws := workspace_name config in
    let get := CallGet rg ws (name inc) in
    match incidents_get client rg ws (name inc) w with
    | (w1, Raise e) => (w1, [get; update_error (name inc) e], Ok tt)
    | (w1, Ok None) =>
        (w1, [get; Log WARNING "Incident %s not found" [ArgStr (name inc)]], Ok tt)
    | (w1, Ok (Some current)) =>
        match properties current with
        | None =>
            (w1, [get; update_error (name inc)
                         (AttributeError "'NoneType' object has no attribute 'status'")],
             Ok tt)
        | Some props =>
            let record := {| name := name current;
                             properties := Some (modify_properties props st cl cm) |} in
            let put := CallCreateOrUpdate rg ws (name current) record in
            match incidents_create_or_update client rg ws (name current) record w1 with
            | (w2, Ok _) =>
                (w2, [get; put;
                      Log INFO "Updated incident %s to status %s with classification %s"
                        [ArgStr (name inc); ArgStatus st; ArgOptStr cl]], Ok tt)
            | (w2, Raise e) => (w2, [get; put; update_error (name inc) e], Ok tt)
            end
        end
    end.
Proof.
  cbv [update_incident_status try_except bind emit call ret raise log app update_error].
  destruct (incidents_get _ _ _ _ w) as [w1 [[current|]|e]]; try reflexivity.
  destruct (properties current) as [props|]; [|reflexivity].
  cbn [name].
  by destruct (incidents_create_or_update _ _ _ _ _ w1) as [w2 [[]|e]].
Qed.

Lemma modify_properties_status (props : IncidentProperties) (st : IncidentStatus)
    (cl cm : option string) :
  sdk.status (modify_properties props st cl cm) = StatusMember st.
Proof. unfold modify_properties. by destruct (truthy cl), (truthy cm). Qed.

Lemma listed_status_modified (incident_id : string) (props : IncidentProperties)
    (st : IncidentStatus) (cl cm : option string) :
  listed_status {| name := incident_id;
                   properties := Some (modify_properties props st cl cm) |} = Some st.
Proof.
  unfold listed_status. simpl.
  pose proof (modify_properties_status props st cl cm) as Hst.
  destruct (modify_properties props st cl cm). simpl in Hst. by subst.
Qed.

Lemma update_incident_status_returns (client : SecurityInsights) (config : SentinelConfig)
    (inc : Incident) (st : IncidentStatus) (cl cm : option string) (w : W) :
  ∃ evs,
    outcome_of (update_incident_status client config inc st cl cm w) = Ok tt ∧
    events_of (update_incident_status client config inc st cl cm w)
      = CallGet (resource_group config) (workspace_name config) (name inc) :: evs ∧
    processed evs = [] ∧
    Forall (λ ev, is_write ev = true → written_status ev = Some st) evs ∧
    Forall (λ ev, is_store_call ev = is_write ev) evs ∧
    Forall (λ ev, ∀ fmt args, ev = Log ERROR fmt args →
                  ∃ e, ev = update_error (name inc) e) evs.
Proof.
  rewrite update_incident_status_run. cbv zeta.
  destruct (incidents_get _ _ _ _ w) as [w1 [[current|]|e]];
    [destruct (properties current) as [props|];
       [destruct (incidents_create_or_update _ _ _ _ _ w1) as [w2 [[]|e]]|]|..].
  all: eexists; split; [reflexivity|]; split; [reflexivity|]; split; [reflexivity|].
  all: split_and!; repeat (apply Forall_cons; split); try apply Forall_nil.
  all: try done; try (intros; simplify_eq; by eauto).
  all: intros _; exact (listed_status_modified (name current) props st cl cm).
Qed.

(** C7: when the re-fetch yields nothing, update application only logs
    the warning "Incident %s not found": no write is attempted and no
    exception escapes. *)
Theorem update_of_absent_incident (client : SecurityInsights) (config : SentinelConfig)
    (inc : Incident) (st : IncidentStatus) (cl cm : option string) (w w' : W) :
  incidents_get client (resource_group config) (workspace_name config) (name inc) w
    = (w', Ok None) →
  update_incident_status client config inc st cl cm w
    = (w',
       [CallGet (resource_group config) (workspace_name config) (name inc);
        Log WARNING "Incident %s not found" [ArgStr (name inc)]],
       Ok tt)
  ∧ Forall (λ ev, is_write ev = false)
      (events_of (update_incident_status client config inc st cl cm w)).
Proof.
  intros Hget. rewrite update_incident_status_run. cbv zeta. rewrite Hget.
  split; [done|]. by repeat constructor.
Qed.

(** C9: for a re-fetched incident, what is submitted to the store is the
    re-fetched record with the requested status; its classification and
    classification comment are the requested ones when these are non-empty
    and the re-fetched ones otherwise; name, title, description and
    severity are the re-fetched ones.  The world after the update is the
    one the store leaves when given that very record.  The loop passes an
    empty classification or comment as [None]. *)
Theorem update_modifies_only_decided_fields (client : SecurityInsights)
    (config : SentinelConfig) (inc : Incident) (st : IncidentStatus)
    (cl cm : option string) (w w1 : W) (current : Incident) (props : IncidentProperties) :
  incidents_get client (resource_group config) (workspace_name config) (name inc) w
    = (w1, Ok (Some current)) →
  properties current = Some props →
  ∃ props' tail,
    let record := {| name := name current; properties := Some props' |} in
    world_of (update_incident_status client config inc st cl cm w)
      = (incidents_create_or_update client (resource_group config) (workspace_name config)
           (name current) record w1).1 ∧
    events_of (update_incident_status client config inc st cl cm w)
      = [CallGet (resource_group config) (workspace_name config) (name inc);
         CallCreateOrUpdate (resource_group config) (workspace_name config) (name current)
           record;
         tail] ∧
    is_write tail = false ∧
    sdk.status props' = StatusMember st ∧
    sdk.classification props' = (if truthy cl then cl else sdk.classification props) ∧
    classification_comment props' = (if truthy cm then cm else classification_comment props) ∧
    sdk.title props' = sdk.title props ∧
    sdk.description props' = sdk.description props ∧
    sdk.severity props' = sdk.severity props ∧
    (∀ x : option string, truthy (or_None x) = truthy x ∧ (truthy x = false → or_None x = None)).
Proof.
  intros Hget Hprops. rewrite update_incident_status_run. cbv zeta.
  rewrite Hget, Hprops. exists (modify_properties props st cl cm).
  destruct (incidents_create_or_update _ _ _ _ _ w1) as [w2 [[]|e]];
    eexists; (split; [reflexivity|]); (split; [reflexivity|]); (split; [reflexivity|]);
    unfold modify_properties; destruct (truthy cl), (truthy cm); simpl;
    split_and!; try done; intros [[|??]|]; done.
Qed.

(** ** The decision *)

Lemma status_eq_same (member : IncidentStatus) (status : Status) :
  status_eq member status = true ↔ same_status member status.
Proof.
  unfold same_status. destruct status as [|m|s]; simpl.
  - split; [done|]. by intros [|].
  - rewrite bool_decide_eq_true. split; [by intros ->; left|]. by intros [[= ->]|].
  - rewrite bool_decide_eq_true. split; [by intros ->; right|]. by intros [|[= ->]].
Qed.

(** C4: the action depends only on the incident's current status and the
    recommended status text. When the mapped status equals the current
    one (the same member or, for Python, the plain string of its value),
    the only effect is the record "No status change": the world is
    untouched and the store is not called.  Otherwise update application
    is run with the mapped status, and it calls the store. *)
Theorem decision_compares_statuses (client : SecurityInsights) (config : SentinelConfig)
    (inc : Incident) (props : IncidentProperties) (summary : models.IncidentSummary)
    (result : gmap string string) (w : W) :
  let mapped := map_status (default "Active" (result !! "recommended_status")) in
  let run := decide_and_apply client config inc props summary result w in
  (same_status mapped (sdk.status props) →
     run = (w, [Log INFO "No status change for incident %s" [ArgStr (models.id summary)]],
            Ok tt)) ∧
  (¬ same_status mapped (sdk.status props) →
     run = update_incident_status client config inc mapped
             (or_None (result !! "classification")) (or_None (result !! "comment")) w) ∧
  ((∃ ev, ev ∈ events_of run ∧ is_store_call ev = true)
   ↔ ¬ same_status mapped (sdk.status props)).
Proof.
  intros mapped run. subst run. unfold decide_and_apply. fold mapped.
  pose proof (status_eq_same mapped (sdk.status props)) as Hsame.
  destruct (status_eq mapped (sdk.status props)); simpl.
  - assert (same_status mapped (sdk.status props)) as Hyes by by apply Hsame.
    split_and!; [done|done|].
    split; [|done]. intros (ev & Hev & Hcall).
    apply list_elem_of_singleton in Hev. by subst ev.
  - assert (¬ same_status mapped (sdk.status props)) as Hno.
    { intros Hyes. by apply Hsame in Hyes. }
    split_and!; [done|done|]. split; [done|intros _].
    destruct (update_incident_status_returns client config inc mapped
                (or_None (result !! "classification")) (or_None (result !! "comment")) w)
      as (evs & _ & -> & _).
    eexists; split; [apply list_elem_of_here|done].
Qed.

(** ** One iteration of the loop *)

Lemma analyse_incident_returns (self : LLMClient) (t d : string) (w : W) :
  ∃ w1 evs recommendation,
    analyse_incident self t d w = (w1, evs, Ok recommendation) ∧
    recommendation !! "recommended_status" = Some "Active" ∧
    processed evs = [] ∧
    Forall (λ ev, ∀ inc, iteration_event inc ev) evs.
Proof.
  rewrite analyse_incident_run. cbv zeta.
  destruct (ChatCompletion_create _ w) as [w1 [response|e]];
    [destruct (first_content response) as [content|e]|].
  all: do 3 eexists; split; [reflexivity|]; split_and!; try done.
  all: repeat (apply Forall_cons; split); try apply Forall_nil; try done.
  all: intros inc; left; by eexists.
Qed.

Lemma iteration_event_of_update (inc : Incident) (ev : Event) :
  listed_status inc ≠ Some ACTIVE →
  (is_write ev = true → written_status ev = Some ACTIVE) →
  is_store_call ev = is_write ev →
  (∀ fmt args, ev = Log ERROR fmt args → ∃ e, ev = update_error (name inc) e) →
  iteration_event inc ev.
Proof. destruct ev as [| | | |[] fmt args]; simpl; try done; eauto. Qed.

Lemma make_summary_id (inc_name : string) (props : IncidentProperties)
    (summary : models.IncidentSummary) :
  make_summary inc_name props = Ok summary → models.id summary = inc_name.
Proof.
  unfold make_summary. destruct (severity_text _); [|done].
  destruct (status_text _); [|done]. by intros [= <-].
Qed.

Lemma status_eq_false (member : IncidentStatus) (inc : Incident)
    (props : IncidentProperties) :
  properties inc = Some props →
  status_eq member (sdk.status props) = false →
  listed_status inc ≠ Some member.
Proof.
  intros Hprops Heq. unfold listed_status. rewrite Hprops.
  destruct props as [? ? ? [|m|s] ? ?]; simpl in *; try done.
  intros [= ->]. by rewrite bool_decide_eq_true_2 in Heq.
Qed.

Lemma decide_and_apply_placeholder (client : SecurityInsights) (config : SentinelConfig)
    (inc : Incident) (props : IncidentProperties) (summary : models.IncidentSummary)
    (recommendation : gmap string string) (w : W) :
  properties inc = Some props →
  recommendation !! "recommended_status" = Some "Active" →
  ∃ w' evs,
    decide_and_apply client config inc props summary recommendation w = (w', evs, Ok tt) ∧
    processed evs = [] ∧
    Forall (iteration_event inc) evs.
Proof.
  intros Hprops Hrec. unfold decide_and_apply. rewrite Hrec.
  change (map_status (default "Active" (Some "Active"))) with ACTIVE.
  destruct (status_eq ACTIVE (sdk.status props)) eqn:Heq; simpl.
  - do 2 eexists. split; [reflexivity|]. split; [done|].
    by repeat constructor.
  - destruct (update_incident_status_returns client config inc ACTIVE
                (or_None (recommendation !! "classification"))
                (or_None (recommendation !! "comment")) w)
      as (evs & Hout & Hevs & Hproc & Hw & Hs & He).
    pose proof (status_eq_false ACTIVE inc props Hprops Heq) as Hlisted.
    destruct (update_incident_status _ _ _ _ _ _ w) as [[w' evs'] r].
    unfold outcome_of, events_of in *. simpl in *. subst r evs'.
    exists w'. eexists. split; [reflexivity|]. split; [done|].
    apply Forall_cons. split; [done|].
    rewrite Forall_forall in Hw, Hs, He |- *. intros ev Hev.
    apply iteration_event_of_update; eauto.
Qed.

Lemma triage_incident_summarised (client : SecurityInsights) (config : SentinelConfig)
    (llm : LLMClient) (inc : Incident) (props : IncidentProperties)
    (summary : models.IncidentSummary) (w : W) :
  properties inc = Some props →
  make_summary (name inc) props = Ok summary →
  ∃ w' evs,
    triage_incident client config llm inc w
      = (w', Log INFO "Processing incident %s" [ArgStr (name inc)] :: evs, Ok tt) ∧
    processed evs = [] ∧
    Forall (iteration_event inc) evs.
Proof.
  intros Hprops Hsum.
  destruct (analyse_incident_returns llm (models.title summary)
              (models.description summary) w)
    as (w1 & evs1 & recommendation & Hrun & Hrec & Hproc1 & Hev1).
  destruct (decide_and_apply_placeholder client config inc props summary
              recommendation w1 Hprops Hrec)
    as (w2 & evs2 & Hrun2 & Hproc2 & Hev2).
  exists w2, (evs1 ++ evs2).
  unfold triage_incident. rewrite Hprops.
  cbv [bind ret lift log emit]. rewrite Hsum, Hrun, Hrun2.
  rewrite (make_summary_id _ _ _ Hsum). split; [reflexivity|]. split.
  - unfold processed in *. by rewrite omap_app, Hproc1, Hproc2.
  - apply Forall_app. split; [|done].
    eapply Forall_impl; [exact Hev1|]. eauto.
Qed.

Lemma triage_incident_summary_fails (client : SecurityInsights) (config : SentinelConfig)
    (llm : LLMClient) (inc : Incident) (props : IncidentProperties) (e : exn) (w : W) :
  properties inc = Some props →
  make_summary (name inc) props = Raise e →
  triage_incident client config llm inc w = (w, [], Raise e).
Proof.
  intros Hprops Hsum. unfold triage_incident. rewrite Hprops.
  cbv [bind ret lift]. by rewrite Hsum.
Qed.

Lemma triage_incident_events (client : SecurityInsights) (config : SentinelConfig)
    (llm : LLMClient) (inc : Incident) (w : W) :
  Forall (iteration_event inc) (events_of (triage_incident client config llm inc w)).
Proof.
  destruct (properties inc) as [props|] eqn:Hprops.
  - destruct (make_summary (name inc) props) as [summary|e] eqn:Hsum.
    + destruct (triage_incident_summarised client config llm inc props summary w
                  Hprops Hsum) as (w' & evs & -> & _ & Hevs).
      by apply Forall_cons.
    + rewrite (triage_incident_summary_fails client config llm inc props e w Hprops Hsum).
      constructor.
  - unfold triage_incident. rewrite Hprops. constructor.
Qed.

(** ** The loop *)

Lemma for_each_events (client : SecurityInsights) (config : SentinelConfig)
    (llm : LLMClient) (incidents : list Incident) (w : W) :
  Forall (λ ev, ∃ inc, inc ∈ incidents ∧ iteration_event inc ev)
    (events_of (for_each incidents (triage_incident client config llm) w)).
Proof.
  revert w. induction incidents as [|inc incidents IH]; intros w; [constructor|].
  simpl. unfold bind.
  pose proof (triage_incident_events client config llm inc w) as Hinc.
  destruct (triage_incident client config llm inc w) as [[w1 evs1] [[]|e]].
  - specialize (IH w1).
    destruct (for_each incidents _ w1) as [[w2 evs2] r]. unfold events_of in *. simpl in *.
    apply Forall_app. split.
    + eapply Forall_impl; [exact Hinc|]. intros ev Hev. exists inc. split; [left|done].
    + eapply Forall_impl; [exact IH|]. intros ev (inc' & Hin & Hev).
      exists inc'. split; [by right|done].
  - unfold events_of in *. simpl in *.
    eapply Forall_impl; [exact Hinc|]. intros ev Hev. exists inc. split; [left|done].
Qed.

Lemma for_each_completes (client : SecurityInsights) (config : SentinelConfig)
    (llm : LLMClient) (incidents : list Incident) (w : W) :
  Forall summarisable incidents →
  outcome_of (for_each incidents (triage_incident client config llm) w) = Ok tt ∧
  processed (events_of (for_each incidents (triage_incident client config llm) w))
    = name <$> incidents.
Proof.
  intros Hall. revert w. induction Hall as [|inc incidents Hinc _ IH]; intros w; [done|].
  destruct Hinc as (props & summary & Hprops & Hsum).
  destruct (triage_incident_summarised client config llm inc props summary w Hprops Hsum)
    as (w1 & evs1 & Hrun & Hproc & _).
  simpl. unfold bind. rewrite Hrun. specialize (IH w1).
  destruct (for_each incidents _ w1) as [[w2 evs2] r].
  unfold outcome_of, events_of, processed in *. simpl in *.
  destruct IH as [-> IH]. split; [done|].
  by rewrite omap_app, Hproc, IH.
Qed.

Lemma for_each_stops (client : SecurityInsights) (config : SentinelConfig)
    (llm : LLMClient) (before after : list Incident) (inc : Incident)
    (props : IncidentProperties) (e : exn) (w : W) :
  Forall summarisable before →
  properties inc = Some props →
  make_summary (name inc) props = Raise e →
  outcome_of (for_each (before ++ inc :: after) (triage_incident client config llm) w)
    = Raise e ∧
  processed (events_of (for_each (before ++ inc :: after)
                          (triage_incident client config llm) w))
    = name <$> before.
Proof.
  intros Hall Hprops Hsum. revert w.
  induction Hall as [|inc' before Hinc _ IH]; intros w.
  - simpl. unfold bind.
    by rewrite (triage_incident_summary_fails client config llm inc props e w Hprops Hsum).
  - destruct Hinc as (props' & summary & Hprops' & Hsum').
    destruct (triage_incident_summarised client config llm inc' props' summary w
                Hprops' Hsum') as (w1 & evs1 & Hrun & Hproc & _).
    simpl. unfold bind. rewrite Hrun. specialize (IH w1).
    destruct (for_each (before ++ inc :: after) _ w1) as [[w2 evs2] r].
    unfold outcome_of, events_of, processed in *. simpl in *.
    destruct IH as [-> IH]. split; [done|].
    by rewrite omap_app, Hproc, IH.
Qed.

(** C1 (as amended): the loop of [run_triage] has no handler of its own.
    Over incidents whose summary can be built, whatever the model
    provider and the store do, no exception leaves the loop and every
    incident is processed in turn: a failure of the model call is caught
    in [analyse_incident] and logged without the incident id, a failure of
    the update is caught in [update_incident_status] and logged with it.
    An exception raised while building a summary leaves the loop: the
    incidents before it have been processed, the others are not. *)
Theorem loop_relies_on_callee_handlers (client : SecurityInsights)
    (config : SentinelConfig) (llm : LLMClient) (w : W) :
  (∀ incidents,
     Forall summarisable incidents →
     let run := for_each incidents (triage_incident client config llm) w in
     outcome_of run = Ok tt ∧
     processed (events_of run) = name <$> incidents ∧
     Forall (λ ev, ∀ fmt args, ev = Log ERROR fmt args →
               (∃ e, ev = llm_error e) ∨
               (∃ inc e, inc ∈ incidents ∧ ev = update_error (name inc) e))
       (events_of run)) ∧
  (∀ before inc after props e,
     Forall summarisable before →
     properties inc = Some props →
     make_summary (name inc) props = Raise e →
     let run := for_each (before ++ inc :: after) (triage_incident client config llm) w in
     outcome_of run = Raise e ∧
     processed (events_of run) = name <$> before).
Proof.
  split.
  - intros incidents Hall run.
    destruct (for_each_completes client config llm incidents w Hall) as [Hout Hproc].
    split_and!; [done|done|].
    eapply Forall_impl; [apply for_each_events|].
    intros ev (inc & Hin & Hev) fmt args ->. simpl in Hev.
    destruct Hev as [?|[e He]]; [by left|right; eauto].
  - intros before inc after props e Hall Hprops Hsum run.
    by apply (for_each_stops client config llm before after inc props e w).
Qed.

Lemma update_error_mentions (incident_id : string) (e : exn) :
  mentions_both (ArgStr incident_id) (ArgExn e) (update_error incident_id e) = true.
Proof.
  unfold mentions_both, update_error. apply andb_true_intro.
  split; apply bool_decide_eq_true_2; [left|right; left].
Qed.

(** C8 (as amended): a failure raised by the re-fetch or by the submit is
    caught inside update application and logged in one record with the
    incident identifier and the exception (the attempted status is not in
    the record); update application never raises, and the loop goes on to
    the remaining incidents. *)
Theorem update_failures_are_contained (client : SecurityInsights)
    (config : SentinelConfig) (inc : Incident) (st : IncidentStatus)
    (cl cm : option string) (w : W) :
  let rg := resource_group config in
  let ws := workspace_name config in
  let run := update_incident_status client config inc st cl cm w in
  outcome_of run = Ok tt ∧
  (∀ w1 e,
     incidents_get client rg ws (name inc) w = (w1, Raise e) →
     events_of run = [CallGet rg ws (name inc); update_error (name inc) e] ∧
     logged_together (ArgStr (name inc)) (ArgExn e) (events_of run) = true) ∧
  (∀ w1 w2 current props e,
     incidents_get client rg ws (name inc) w = (w1, Ok (Some current)) →
     properties current = Some props →
     let record := {| name := name current;
                      properties := Some (modify_properties props st cl cm) |} in
     incidents_create_or_update client rg ws (name current) record w1 = (w2, Raise e) →
     events_of run = [CallGet rg ws (name inc);
                      CallCreateOrUpdate rg ws (name current) record;
                      update_error (name inc) e] ∧
     logged_together (ArgStr (name inc)) (ArgExn e) (events_of run) = true) ∧
  (∀ llm incidents,
     Forall summarisable incidents →
     outcome_of (for_each incidents (triage_incident client config llm) w) = Ok tt ∧
     processed (events_of (for_each incidents (triage_incident client config llm) w))
       = name <$> incidents).
Proof.
  intros rg ws run. split_and!.
  - by destruct (update_incident_status_returns client config inc st cl cm w)
      as (evs & Hout & _).
  - intros w1 e Hget. subst run rg ws.
    rewrite update_incident_status_run. cbv zeta. rewrite Hget.
    split; [done|]. unfold events_of, logged_together.
    cbn [fst snd existsb mentions_both].
    by rewrite update_error_mentions.
  - intros w1 w2 current props e Hget Hprops record Hput. subst run rg ws.
    rewrite update_incident_status_run. cbv zeta. rewrite Hget, Hprops.
    fold record. rewrite Hput.
    split; [done|]. unfold events_of, logged_together.
    cbn [fst snd existsb mentions_both].
    by rewrite update_error_mentions.
  - intros llm incidents Hall. by apply for_each_completes.
Qed.

(** ** A whole pass *)

Lemma bind_Forall {A B} (P : Event → Prop) (m : M W A) (k : A → M W B) (w : W) :
  Forall P (events_of (m w)) →
  (∀ a, outcome_of (m w) = Ok a → Forall P (events_of (k a (world_of (m w))))) →
  Forall P (events_of (bind m k w)).
Proof.
  unfold bind, events_of, outcome_of, world_of.
  destruct (m w) as [[w1 evs] [a|e]]; simpl; intros H1 H2; [|done].
  specialize (H2 a eq_refl). destruct (k a w1) as [[??]?]; simpl in *.
  by apply Forall_app.
Qed.

Lemma try_except_Forall {A} (P : Event → Prop) (m : M W A) (h : exn → M W A) (w : W) :
  Forall P (events_of (m w)) →
  (∀ e, Forall P (events_of (h e (world_of (m w))))) →
  Forall P (events_of (try_except m h w)).
Proof.
  unfold try_except, events_of, world_of.
  destruct (m w) as [[w1 evs] [a|e]]; simpl; intros H1 H2; [done|].
  specialize (H2 e). destruct (h e w1) as [[??]?]; simpl in *.
  by apply Forall_app.
Qed.

Lemma list_active_incidents_run (client : SecurityInsights) (config : SentinelConfig)
    (w : W) :
  list_active_incidents client config w =
    let rg := resource_group config in
    let ws := workspace_name config in
    match incidents_list client rg ws w with
    | (w1, Ok pager) =>
        let incidents := filter (λ incident, is_active incident = true) pager in
        (w1, [CallList rg ws;
              Log INFO "Fetched %d active incidents" [ArgNat (length incidents)]],
         Ok incidents)
    | (w1, Raise e) =>
        (w1, [CallList rg ws; Log ERROR "Error listing incidents: %s" [ArgExn e]], Ok [])
    end.
Proof.
  cbv [list_active_incidents try_except bind emit call ret log app].
  by destruct (incidents_list _ _ _ w) as [w1 [pager|e]].
Qed.

Lemma load_config_events (w : W) : events_of (load_config w) = [].
Proof.
  unfold load_config. cbv [bind read raise ret events_of].
  by destruct (negb _).
Qed.

Lemma new_LLMClient_events (model_name : string) (w : W) :
  events_of (new_LLMClient model_name w) = [].
Proof.
  unfold new_LLMClient. cbv [bind read raise ret modify events_of].
  destruct (openai_is_None w); [done|]. by destruct (negb _).
Qed.

Lemma bind_bind {A B C} (m : M W A) (k : A → M W B) (h : B → M W C) (w : W) :
  bind (bind m k) h w = bind m (λ a, bind (k a) h) w.
Proof.
  unfold bind. destruct (m w) as [[w1 evs1] [a|e]]; [|done].
  destruct (k a w1) as [[w2 evs2] [b|e]]; [|done].
  destruct (h b w2) as [[w3 evs3] r]. by rewrite app_assoc.
Qed.

Lemma bind_ret {A B} (a : A) (k : A → M W B) (w : W) : bind (ret a) k w = k a w.
Proof. unfold bind, ret. by destruct (k a w) as [[w1 evs] r]. Qed.

Lemma bind_ext {A B} (m : M W A) (k k' : A → M W B) (w : W) :
  (∀ a w1, k a w1 = k' a w1) → bind m k w = bind m k' w.
Proof.
  intros Hk. unfold bind. destruct (m w) as [[w1 evs1] [a|e]]; [|done].
  by rewrite Hk.
Qed.

(** A pass is its set-up followed by the listing and the loop. *)
Lemma run_triage_after_set_up (w : W) : run_triage w = bind set_up triage_listed w.
Proof.
  unfold run_triage, set_up.
  rewrite bind_bind. apply bind_ext. intros _ w1. cbv beta.
  rewrite bind_bind. apply bind_ext. intros _ w2. cbv beta.
  rewrite bind_bind. apply bind_ext. intros config w3. cbv beta.
  rewrite bind_bind. apply bind_ext. intros client w4. cbv beta.
  rewrite bind_bind. apply bind_ext. intros llm w5. cbv beta.
  rewrite bind_ret. by destruct llm.
Qed.

Lemma set_up_quiet (w : W) :
  Forall (λ ev, is_store_call ev = false) (events_of (set_up w)).
Proof.
  unfold set_up.
  apply bind_Forall.
  { unfold configure_logging, call, events_of.
    destruct (logging_setup w); constructor. }
  intros _ _. apply bind_Forall; [constructor|].
  intros _ _. apply bind_Forall.
  { rewrite load_config_events. constructor. }
  intros config _. apply bind_Forall.
  { unfold get_sentinel_client, get_credential.
    apply bind_Forall; [|intros; constructor].
    apply try_except_Forall.
    - apply bind_Forall; [|intros; by repeat constructor].
      unfold call, events_of. destruct (credential_get_token _); constructor.
    - intros e. by repeat constructor. }
  intros client _. apply bind_Forall; [|intros; constructor].
  apply try_except_Forall; [|intros e; by repeat constructor].
  apply bind_Forall; [constructor|]. intros model _.
  apply bind_Forall; [|intros; constructor].
  rewrite new_LLMClient_events. constructor.
Qed.

Lemma store_calls_app (evs1 evs2 : list Event) :
  store_calls (evs1 ++ evs2) = store_calls evs1 ++ store_calls evs2.
Proof. apply List.filter_app. Qed.

Lemma store_calls_quiet (evs : list Event) :
  Forall (λ ev, is_store_call ev = false) evs → store_calls evs = [].
Proof.
  induction 1 as [|ev evs Hev _ IH]; [done|].
  unfold store_calls in *. simpl. by rewrite Hev.
Qed.

Lemma update_incident_status_store_calls (client : SecurityInsights)
    (config : SentinelConfig) (inc : Incident) (st : IncidentStatus)
    (cl cm : option string) (w : W) :
  ∃ rg ws,
    store_calls (events_of (update_incident_status client config inc st cl cm w))
      = [CallGet rg ws (name inc)] ∨
    ∃ incident_id record,
      store_calls (events_of (update_incident_status client config inc st cl cm w))
        = [CallGet rg ws (name inc); CallCreateOrUpdate rg ws incident_id record] ∧
      listed_status record = Some st.
Proof.
  exists (resource_group config), (workspace_name config).
  rewrite update_incident_status_run. cbv zeta.
  destruct (incidents_get _ _ _ _ w) as [w1 [[current|]|e]];
    [destruct (properties current) as [props|];
       [destruct (incidents_create_or_update _ _ _ _ _ w1) as [w2 [[]|e]]|]|..].
  all: try (left; reflexivity).
  all: right; do 2 eexists; split; [reflexivity|apply listed_status_modified].
Qed.

Lemma listed_new (inc : Incident) (props : IncidentProperties)
    (summary : models.IncidentSummary) :
  properties inc = Some props →
  make_summary (name inc) props = Ok summary →
  is_active inc = true →
  status_eq ACTIVE (sdk.status props) = false →
  listed_status inc = Some NEW.
Proof.
  intros Hprops Hsum Hact Hno. unfold is_active, listed_status in *.
  rewrite Hprops in *. rewrite Hno, orb_false_r in Hact.
  unfold make_summary in Hsum. destruct (severity_text _); [|done].
  destruct props as [? ? ? [|m|[|c s]] ? ?]; simpl in *; try done.
  by apply bool_decide_eq_true_1 in Hact as ->.
Qed.

Lemma triage_incident_store_calls (client : SecurityInsights) (config : SentinelConfig)
    (llm : LLMClient) (inc : Incident) (w : W) :
  store_calls (events_of (triage_incident client config llm inc w)) = [] ∨
  (is_active inc = true → listed_status inc = Some NEW) ∧
  activation_attempt inc (store_calls (events_of (triage_incident client config llm inc w))).
Proof.
  unfold triage_incident.
  destruct (properties inc) as [props|] eqn:Hprops; [|by left].
  cbv [bind ret lift log emit].
  destruct (make_summary (name inc) props) as [summary|e] eqn:Hsum; [|by left].
  assert (∀ recommendation w1,
            recommendation !! "recommended_status" = Some "Active" →
            store_calls (events_of (decide_and_apply client config inc props summary
                                      recommendation w1)) = [] ∨
            (is_active inc = true → listed_status inc = Some NEW) ∧
            activation_attempt inc
              (store_calls (events_of (decide_and_apply client config inc props summary
                                         recommendation w1)))) as Hdecide.
  { intros recommendation w1 Hrec. unfold decide_and_apply. rewrite Hrec.
    change (map_status (default "Active" (Some "Active"))) with ACTIVE.
    destruct (status_eq ACTIVE (sdk.status props)) eqn:Heq; simpl; [by left|].
    right. split; [intros Hact; by eapply listed_new|].
    apply update_incident_status_store_calls. }
  rewrite analyse_incident_run. cbv zeta.
  destruct (ChatCompletion_create _ w) as [w1 [response|e]];
    [destruct (first_content response) as [content|e]|].
  all: match goal with
       | |- context [decide_and_apply ?c ?g ?i ?p ?s ?r ?w1] =>
           pose proof (Hdecide r w1 eq_refl) as Hcalls;
           destruct (decide_and_apply c g i p s r w1) as [[w2 evs2] out]
       end.
  all: unfold events_of in *; simpl in *; exact Hcalls.
Qed.

Lemma for_each_store_calls (client : SecurityInsights) (config : SentinelConfig)
    (llm : LLMClient) (incidents : list Incident) (w : W) :
  Forall (λ inc, is_active inc = true) incidents →
  ∃ updated attempts,
    updated `sublist_of` incidents ∧
    Forall (λ inc, listed_status inc = Some NEW) updated ∧
    Forall2 activation_attempt updated attempts ∧
    store_calls (events_of (for_each incidents (triage_incident client config llm) w))
      = concat attempts.
Proof.
  intros Hall. revert w.
  induction Hall as [|inc incidents Hact _ IH]; intros w.
  { exists [], []. by split_and!. }
  simpl. unfold bind.
  pose proof (triage_incident_store_calls client config llm inc w) as Hinc.
  destruct (triage_incident client config llm inc w) as [[w1 evs1] [[]|e]].
  - destruct (IH w1) as (updated & attempts & Hsub & Hnew & Hatt & Hcalls).
    destruct (for_each incidents _ w1) as [[w2 evs2] r].
    unfold events_of in *. simpl in *. rewrite store_calls_app, Hcalls.
    destruct Hinc as [-> | [Hlisted Hattempt]].
    + exists updated, attempts. split_and!; [by apply sublist_cons|done|done|done].
    + exists (inc :: updated), (store_calls evs1 :: attempts).
      split_and!; [by apply sublist_skip|by constructor; auto|by constructor|done].
  - unfold events_of in *. simpl in *.
    destruct Hinc as [-> | [Hlisted Hattempt]].
    + exists [], []. split_and!; [apply sublist_nil_l|done|done|done].
    + exists [inc], [store_calls evs1].
      split_and!; [|by constructor; auto|by repeat constructor|by simpl; rewrite app_nil_r].
      apply sublist_skip, sublist_nil_l.
Qed.

(** C5: with the placeholder parser, the calls that a pass of [run_triage]
    makes on the store for updates fall into update attempts, one for each
    of some incidents of the pass's own listing, taken in the order of
    the listing, each of them listed with status New.  An attempt is the
    re-fetch of its incident followed by at most one submitted record, and
    every submitted record carries status Active: none carries Closed or
    New. *)
Theorem run_triage_only_activates_new_incidents (w : W) :
  run_triage w = bind set_up triage_listed w ∧
  ∃ updated attempts,
    updated `sublist_of` listing w ∧
    Forall (λ inc, listed_status inc = Some NEW) updated ∧
    Forall2 activation_attempt updated attempts ∧
    store_calls (events_of (run_triage w)) = concat attempts.
Proof.
  split; [apply run_triage_after_set_up|].
  rewrite run_triage_after_set_up. unfold listing, bind.
  pose proof (set_up_quiet w) as Hquiet%store_calls_quiet.
  destruct (set_up w) as [[w0 evs0] [[[[config client] llm]|]|e]];
    unfold events_of in *; cbn [fst snd triage_listed] in *.
  - unfold bind. rewrite list_active_incidents_run. cbv zeta.
    destruct (incidents_list client _ _ w0) as [w1 [pager|e]].
    + destruct (for_each_store_calls client config llm
                  (filter (λ incident, is_active incident = true) pager) w1)
        as (updated & attempts & Hsub & Hnew & Hatt & Hcalls).
      { apply Forall_forall. by intros inc [Hact _]%list_elem_of_filter. }
      exists updated, attempts. split_and!; [|done|done|].
      * etrans; [exact Hsub|apply sublist_filter].
      * destruct (for_each _ _ w1) as [[w2 evs2] r]. cbn [fst snd] in *.
        rewrite !store_calls_app, Hquiet, <- Hcalls. done.
    + exists [], []. split_and!; [done|done|done|].
      cbn [for_each ret fst snd]. by rewrite !store_calls_app, Hquiet.
  - exists [], []. split_and!; [done|done|done|].
    cbn [ret fst snd]. by rewrite app_nil_r.
  - exists [], []. by split_and!.
Qed.

End services.

(** ** The statements on a scripted world *)

Lemma loop_relies_on_callee_handlers_witness :
  (let run := for_each [sim.inc1; sim.inc2]
                (auto_triage.triage_incident sim.client sim.config sim.llm) sim.degraded in
   outcome_of run = Ok tt ∧ processed (events_of run) = ["inc-1"; "inc-2"]) ∧
  (let run := for_each ([sim.inc1] ++ sim.inc_odd :: [sim.inc2])
                (auto_triage.triage_incident sim.client sim.config sim.llm) sim.degraded in
   outcome_of run = Raise (AttributeError "'str' object has no attribute 'name'") ∧
   processed (events_of run) = ["inc-1"]).
Proof.
  destruct (loop_relies_on_callee_handlers sim.client sim.config sim.llm sim.degraded)
    as [Hgood Hbad].
  split.
  - destruct (Hgood [sim.inc1; sim.inc2]) as (Hout & Hproc & _).
    + repeat constructor; do 2 eexists; (split; reflexivity).
    + split; [exact Hout | exact Hproc].
  - eapply (Hbad [sim.inc1] sim.inc_odd [sim.inc2]); [|reflexivity|reflexivity].
    repeat constructor; do 2 eexists; (split; reflexivity).
Defined.

(** C1, as stated, fails.  A severity without a [name] makes the summary
    construction of "inc-0" raise: the exception leaves [run_triage] and
    "inc-1" is never processed.  And when the model call fails, the error
    record carries the exception but not the incident id. *)
Lemma loop_handler_counterexample :
  (let run := auto_triage.run_triage
                (sim.configured [sim.inc_odd; sim.inc1] [sim.reply "Active"]) in
   outcome_of run = Raise (AttributeError "'str' object has no attribute 'name'") ∧
   processed (events_of run) = [] ∧
   error_records (events_of run) = []) ∧
  (let run := auto_triage.run_triage (sim.configured [sim.inc1] [Raise sim.rate_limit]) in
   outcome_of run = Ok tt ∧
   error_records (events_of run) = [llm_error sim.rate_limit] ∧
   logged_together (ArgExn sim.rate_limit) (ArgStr "inc-1") (events_of run) = false).
Proof. split; by vm_compute. Qed.

Lemma analyse_incident_provider_failure_witness :
  ∃ recommendation comment,
    outcome_of (llm_client.analyse_incident sim.llm "Suspicious login"
                  "Multiple failed attempts" sim.degraded) = Ok recommendation ∧
    recommendation !! "recommended_status" = Some "Active" ∧
    recommendation !! "classification" = Some "Unspecified" ∧
    recommendation !! "comment" = Some comment ∧ comment ≠ "" ∧
    events_of (llm_client.analyse_incident sim.llm "Suspicious login"
                 "Multiple failed attempts" sim.degraded)
      = [CallChat (llm_client.chat_request sim.llm
                     (llm_client.prompt_of "Suspicious login" "Multiple failed attempts"));
         llm_error sim.rate_limit].
Proof.
  apply (analyse_incident_provider_failure sim.llm "Suspicious login"
           "Multiple failed attempts" sim.degraded
           (sim.set_replies [sim.reply "Closed, Benign."] sim.degraded) sim.rate_limit).
  reflexivity.
Defined.

Lemma analyse_incident_placeholder_witness :
  ∃ recommendation,
    outcome_of (llm_client.analyse_incident sim.llm "Suspicious login"
                  "Multiple failed attempts"
                  (sim.configured [] [sim.reply "Closed, Benign."])) = Ok recommendation ∧
    recommendation !! "recommended_status" = Some "Active" ∧
    recommendation !! "classification" = Some "" ∧
    recommendation !! "comment" = Some "Closed, Benign.".
Proof.
  destruct (analyse_incident_placeholder sim.llm "Suspicious login"
              "Multiple failed attempts"
              (sim.configured [] [sim.reply "Closed, Benign."])
              (sim.set_replies [] (sim.configured [] [sim.reply "Closed, Benign."]))
              {| choices := [ {[ "role" := "assistant"; "content" := "Closed, Benign." ]} ] |}
              "Closed, Benign.")
    as (recommendation & Hout & Hst & Hcl & _ & _ & _ & Hwhole); [reflexivity..|].
  exists recommendation. split_and!; [exact Hout|exact Hst|exact Hcl|].
  apply Hwhole. split; reflexivity.
Defined.

(** C6, as stated, fails: the reply " Closed, Benign. " is not stored whole,
    its surrounding white space is removed. *)
Lemma analyse_incident_placeholder_counterexample :
  ∃ recommendation,
    outcome_of (llm_client.analyse_incident sim.llm "Suspicious login"
                  "Multiple failed attempts"
                  (sim.configured [] [sim.reply " Closed, Benign. "])) = Ok recommendation ∧
    recommendation !! "comment" = Some "Closed, Benign." ∧
    recommendation !! "comment" ≠ Some " Closed, Benign. ".
Proof.
  eexists. split; [reflexivity|]. split; [reflexivity|]. discriminate.
Qed.

Lemma update_of_absent_incident_witness :
  sentinel_client.update_incident_status sim.client sim.config sim.inc1 ACTIVE None
      (Some "Closed, Benign.") (sim.configured [sim.inc2] [])
    = (sim.configured [sim.inc2] [],
       [CallGet "rg" "ws" "inc-1"; Log WARNING "Incident %s not found" [ArgStr "inc-1"]],
       Ok tt)
  ∧ Forall (λ ev, is_write ev = false)
      (events_of (sentinel_client.update_incident_status sim.client sim.config sim.inc1
                    ACTIVE None (Some "Closed, Benign.") (sim.configured [sim.inc2] []))).
Proof.
  apply (update_of_absent_incident sim.client sim.config sim.inc1 ACTIVE None
           (Some "Closed, Benign.") (sim.configured [sim.inc2] [])
           (sim.configured [sim.inc2] [])).
  reflexivity.
Defined.

Lemma decision_compares_statuses_witness :
  auto_triage.decide_and_apply sim.client sim.config sim.inc3
      (sim.props (Some "Port scan") (SevMember "LOW") (Some ACTIVE))
      (sim.summary "inc-3" "ACTIVE") {[ "recommended_status" := "aCtIvE" ]}
      (sim.configured [sim.inc3] [])
    = (sim.configured [sim.inc3] [],
       [Log INFO "No status change for incident %s" [ArgStr "inc-3"]], Ok tt)
  ∧ auto_triage.decide_and_apply sim.client sim.config sim.inc3
      (sim.props (Some "Port scan") (SevMember "LOW") (Some ACTIVE))
      (sim.summary "inc-3" "ACTIVE")
      {[ "recommended_status" := "Closed due to benign activity" ]}
      (sim.configured [sim.inc3] [])
    = sentinel_client.update_incident_status sim.client sim.config sim.inc3 CLOSED
        None None (sim.configured [sim.inc3] []).
Proof.
  split.
  - pose proof (decision_compares_statuses sim.client sim.config sim.inc3
                  (sim.props (Some "Port scan") (SevMember "LOW") (Some ACTIVE))
                  (sim.summary "inc-3" "ACTIVE") {[ "recommended_status" := "aCtIvE" ]}
                  (sim.configured [sim.inc3] [])) as H.
    cbv zeta in H. destruct H as (Hsame & _ & _). apply Hsame. left. reflexivity.
  - pose proof (decision_compares_statuses sim.client sim.config sim.inc3
                  (sim.props (Some "Port scan") (SevMember "LOW") (Some ACTIVE))
                  (sim.summary "inc-3" "ACTIVE")
                  {[ "recommended_status" := "Closed due to benign activity" ]}
                  (sim.configured [sim.inc3] [])) as H.
    cbv zeta in H. destruct H as (_ & Hdiff & _). apply Hdiff.
    intros [Heq|Heq]; vm_compute in Heq; discriminate Heq.
Defined.

Lemma update_failures_are_contained_witness :
  let run := sentinel_client.update_incident_status sim.client sim.config sim.inc2
               ACTIVE None (Some "Closed, Benign.") sim.degraded in
  outcome_of run = Ok tt ∧
  events_of run = [CallGet "rg" "ws" "inc-2"; update_error "inc-2" sim.timeout] ∧
  logged_together (ArgStr "inc-2") (ArgExn sim.timeout) (events_of run) = true.
Proof.
  pose proof (update_failures_are_contained sim.client sim.config sim.inc2 ACTIVE None
                (Some "Closed, Benign.") sim.degraded) as H.
  cbv zeta in H. destruct H as (Hout & Hget & _).
  destruct (Hget sim.degraded sim.timeout) as [Hev Hlog]; [reflexivity|].
  cbv zeta. split; [exact Hout|]. split; [exact Hev|exact Hlog].
Defined.

(** C8, as stated, fails: when the re-fetch or the submit fails, no log
    record carries the attempted status. *)
Lemma update_failure_record_counterexample :
  (let run := sentinel_client.update_incident_status sim.client sim.config sim.inc2
                ACTIVE None (Some "Closed, Benign.") sim.degraded in
   outcome_of run = Ok tt ∧
   error_records (events_of run) = [update_error "inc-2" sim.timeout] ∧
   logged_together (ArgStatus ACTIVE) (ArgStatus ACTIVE) (events_of run) = false) ∧
  (let run := sentinel_client.update_incident_status sim.client sim.config sim.inc1
                ACTIVE None (Some "Closed, Benign.")
                (sim.set_update_faults {[ "inc-1" := sim.timeout ]}
                   (sim.configured [sim.inc1] [])) in
   outcome_of run = Ok tt ∧
   error_records (events_of run) = [update_error "inc-1" sim.timeout] ∧
   logged_together (ArgStatus ACTIVE) (ArgStatus ACTIVE) (events_of run) = false).
Proof. split; by vm_compute. Qed.

Lemma update_modifies_only_decided_fields_witness :
  let run := sentinel_client.update_incident_status sim.client sim.config sim.inc4
               ACTIVE None (Some "") (sim.configured [sim.inc4] []) in
  ∃ props',
    sim.lookup_incident "inc-4" (sim.store (world_of run))
      = Some {| name := "inc-4"; properties := Some props' |} ∧
    CallCreateOrUpdate "rg" "ws" "inc-4" {| name := "inc-4"; properties := Some props' |}
      ∈ events_of run ∧
    sdk.status props' = StatusMember ACTIVE ∧
    sdk.classification props' = Some "TruePositive" ∧
    classification_comment props' = Some "analyst note" ∧
    sdk.title props' = Some "Suspicious login" ∧
    sdk.severity props' = SevMember "HIGH".
Proof.
  destruct (update_modifies_only_decided_fields sim.client sim.config sim.inc4 ACTIVE
              None (Some "") (sim.configured [sim.inc4] []) (sim.configured [sim.inc4] [])
              sim.inc4 sim.noted)
    as (props' & tail & H); [reflexivity..|].
  cbv zeta in H.
  destruct H as (Hworld & Hev & _ & Hst & Hcl & Hcm & Ht & _ & Hsev & _).
  cbv zeta. exists props'. split; [|split].
  - rewrite Hworld. reflexivity.
  - rewrite Hev. right. left.
  - split; [exact Hst|]. split; [exact Hcl|]. split; [exact Hcm|].
    split; [exact Ht|exact Hsev].
Defined.

(** ** Scenarios *)

(** The test of [tests/test_models.py]. *)
Example as_prompt_test :
  models.as_prompt
    {| models.id := "1"; models.title := "Test Incident";
       models.description := "This is a test incident";
       models.severity := "High"; models.status := "Active" |}
  = "[High] Test Incident: This is a test incident".
Proof. reflexivity. Qed.

(** [strip] removes the Unicode white space too: here a no-break space
    (U+00A0, the bytes C2 A0) in front of the text and an ideographic space
    (U+3000, the bytes E3 80 80) after it. *)
Example strip_unicode_space :
  strip (String (ascii_of_nat 194) (String (ascii_of_nat 160) " Benign. ")
         +:+ String (ascii_of_nat 227)
               (String (ascii_of_nat 128) (String (ascii_of_nat 128) "")))
  = "Benign.".
Proof. by vm_compute. Qed.

(** One New and one Active incident: exactly one record is submitted, for
    the New one, with status Active and the model reply as comment. *)
Example pass_over_two_incidents :
  let run := auto_triage.run_triage
               (sim.configured [sim.inc1; sim.inc3] [sim.reply "Benign."; sim.reply "Benign."]) in
  outcome_of run = Ok tt ∧
  processed (events_of run) = ["inc-1"; "inc-3"] ∧
  writes (events_of run) = [("inc-1", Some ACTIVE)] ∧
  sim.lookup_incident "inc-1" (sim.store (world_of run))
    = Some {| name := "inc-1";
              properties :=
                Some {| sdk.title := Some "Suspicious login";
                        sdk.description := Some "Multiple failed attempts";
                        sdk.severity := SevMember "HIGH";
                        sdk.status := StatusMember ACTIVE;
                        classification := None;
                        classification_comment := Some "Benign." |} |}.
Proof. by vm_compute. Qed.

(** The listing of that pass, and its calls on the store for updates. *)
Example pass_over_two_incidents_store_calls :
  let w := sim.configured [sim.inc1; sim.inc3] [sim.reply "Benign."; sim.reply "Benign."] in
  listing w = [sim.inc1; sim.inc3] ∧
  refetched (store_calls (events_of (auto_triage.run_triage w))) = ["inc-1"] ∧
  writes (store_calls (events_of (auto_triage.run_triage w))) = [("inc-1", Some ACTIVE)].
Proof. by vm_compute. Qed.

(** An incident whose status is the plain string "New" passes the filter
    of the listing and then stops the pass: its status has no [name]. *)
Example pass_over_plain_string_status :
  let inc :=
    {| name := "inc-8";
       properties :=
         Some {| sdk.title := Some "Suspicious login";
                 sdk.description := Some "Multiple failed attempts";
                 sdk.severity := SevMember "HIGH";
                 sdk.status := StatusStr "New";
                 classification := None;
                 classification_comment := None |} |} in
  let w := sim.configured [inc; sim.inc1] [sim.reply "Benign."] in
  outcome_of (sentinel_client.list_active_incidents sim.client sim.config w)
    = Ok [inc; sim.inc1] ∧
  outcome_of (auto_triage.run_triage w)
    = Raise (AttributeError "'str' object has no attribute 'name'") ∧
  processed (events_of (auto_triage.run_triage w)) = [] ∧
  store_calls (events_of (auto_triage.run_triage w)) = [].
Proof. by vm_compute. Qed.

(** A second pass over the resulting store submits nothing. *)
Example second_pass_is_idle :
  let first := auto_triage.run_triage (sim.configured [sim.inc1] [sim.reply "Benign."]) in
  let second := auto_triage.run_triage
                  (sim.set_replies [sim.reply "Benign."] (world_of first)) in
  writes (events_of first) = [("inc-1", Some ACTIVE)] ∧
  outcome_of second = Ok tt ∧
  processed (events_of second) = ["inc-1"] ∧
  writes (events_of second) = [].
Proof. by vm_compute. Qed.

(** Without the required settings the pass stops before the listing. *)
Example pass_without_configuration :
  let run := auto_triage.run_triage
               (sim.set_environ ∅ (sim.configured [sim.inc1] [sim.reply "Benign."])) in
  outcome_of run
    = Raise (EnvironmentError
        "SUBSCRIPTION_ID, RESOURCE_GROUP and WORKSPACE_NAME environment variables must be set")
  ∧ events_of run = [].
Proof. by vm_compute. Qed.


(** * Further properties of the code *)

Section setup.
Context {W : Type} `{!Collaborators W}.
Import llm_client sentinel_client auto_triage.

(** ** Configuration and clients *)

(** X1: [load_config] reads the three settings without touching the world
    or emitting anything.  It returns them when all three are set and
    non-empty, and raises [EnvironmentError] as soon as one of them is
    unset or empty. *)
Theorem load_config_requires_all_settings (w : W) :
  world_of (load_config w) = w ∧
  events_of (load_config w) = [] ∧
  (∀ s r n,
     getenv "SUBSCRIPTION_ID" w = Some s → s ≠ "" →
     getenv "RESOURCE_GROUP" w = Some r → r ≠ "" →
     getenv "WORKSPACE_NAME" w = Some n → n ≠ "" →
     outcome_of (load_config w)
       = Ok {| subscription_id := s; resource_group := r; workspace_name := n |}) ∧
  (∀ k,
     k ∈ ["SUBSCRIPTION_ID"; "RESOURCE_GROUP"; "WORKSPACE_NAME"] →
     truthy (getenv k w) = false →
     outcome_of (load_config w)
       = Raise (EnvironmentError
           "SUBSCRIPTION_ID, RESOURCE_GROUP and WORKSPACE_NAME environment variables must be set")).
Proof.
  unfold load_config. cbv [bind read raise ret world_of events_of outcome_of].
  split_and!.
  - by destruct (negb _).
  - by destruct (negb _).
  - intros s r n -> Hs -> Hr -> Hn.
    by destruct s, r, n.
  - intros k Hk Hfalsy.
    repeat (apply elem_of_cons in Hk as [-> | Hk]); [..|by apply elem_of_nil in Hk];
      rewrite Hfalsy; simpl; by rewrite ?andb_false_r.
Qed.

(** X2: [LLMClient.__init__] checks the package before the key.  Without
    the openai package it raises [ImportError], whatever the key; with the
    package but an unset or empty OPENAI_API_KEY it raises [ValueError]; in
    both cases the key of the package is not assigned.  Otherwise it
    assigns the key and returns a client with the requested model and
    temperature 0.2. *)
Theorem new_LLMClient_checks (model_name : string) (w : W) :
  (openai_is_None w = true →
     new_LLMClient model_name w
       = (w, [], Raise (ImportError
            "openai package is not installed. Install openai or implement a different provider."))) ∧
  (openai_is_None w = false → truthy (getenv "OPENAI_API_KEY" w) = false →
     new_LLMClient model_name w
       = (w, [], Raise (ValueError "OPENAI_API_KEY environment variable is not set"))) ∧
  (∀ key, openai_is_None w = false → getenv "OPENAI_API_KEY" w = Some key → key ≠ "" →
     new_LLMClient model_name w
       = (openai_set_api_key key w, [],
          Ok {| llm_client.model_name := model_name;
                llm_client.temperature := QArith_base.Qmake 2 10 |})).
Proof.
  unfold new_LLMClient. cbv [bind read raise ret modify].
  split_and!.
  - by intros ->.
  - by intros -> ->.
  - intros key -> -> Hkey. by destruct key.
Qed.

(** X3: [get_sentinel_client] needs a token.  When the credential chain
    fails, the failure is logged once as an error and the same exception
    is raised again; when it succeeds, the only record is the debug record
    "Obtained token using DefaultAzureCredential" and the client is bound
    to the subscription of the configuration. *)
Theorem get_sentinel_client_needs_token (config : SentinelConfig) (w : W) :
  (∀ w1 e,
     credential_get_token w = (w1, Raise e) →
     get_sentinel_client config w
       = (w1, [Log ERROR "Failed to obtain Azure credentials: %s" [ArgExn e]], Raise e)) ∧
  (∀ w1 u,
     credential_get_token w = (w1, Ok u) →
     get_sentinel_client config w
       = (w1, [Log DEBUG "Obtained token using DefaultAzureCredential" []],
          Ok {| client_subscription := subscription_id config |})).
Proof.
  unfold get_sentinel_client, get_credential.
  cbv [bind try_except call raise ret log emit app].
  split; intros w1 x Htoken; by rewrite Htoken.
Qed.

(** X4: [list_active_incidents] never raises.  A failure of the listing is
    logged and gives the empty list.  Otherwise the result keeps, in the
    order of the listing, exactly the incidents that have properties and
    whose status equals New or Active (the member or, for Python, the plain
    string of its value), and their number is logged. *)
Theorem list_active_incidents_filters (client : SecurityInsights) (config : SentinelConfig)
    (w : W) :
  let rg := resource_group config in
  let ws := workspace_name config in
  (∀ w1 e,
     incidents_list client rg ws w = (w1, Raise e) →
     list_active_incidents client config w
       = (w1, [CallList rg ws; Log ERROR "Error listing incidents: %s" [ArgExn e]], Ok [])) ∧
  (∀ w1 pager,
     incidents_list client rg ws w = (w1, Ok pager) →
     ∃ incidents,
       list_active_incidents client config w
         = (w1, [CallList rg ws;
                 Log INFO "Fetched %d active incidents" [ArgNat (length incidents)]],
            Ok incidents) ∧
       incidents `sublist_of` pager ∧
       ∀ inc, inc ∈ incidents ↔
                inc ∈ pager ∧
                ∃ props, properties inc = Some props ∧
                         (same_status NEW (sdk.status props) ∨
                          same_status ACTIVE (sdk.status props))) ∧
  ∃ incidents, outcome_of (list_active_incidents client config w) = Ok incidents.
Proof.
  intros rg ws. rewrite list_active_incidents_run. cbv zeta. fold rg ws.
  split_and!.
  - by intros w1 e ->.
  - intros w1 pager ->. eexists. split; [reflexivity|]. split.
    + apply sublist_filter.
    + intros inc. rewrite list_elem_of_filter. unfold is_active. split.
      * intros [Hact Hin]. split; [done|].
        destruct (properties inc) as [props|]; [|done]. exists props. split; [done|].
        apply orb_prop in Hact as [H|H]; apply status_eq_same in H; auto.
      * intros [Hin (props & -> & Hst)]. split; [|done].
        apply orb_true_intro.
        destruct Hst as [H|H]; apply status_eq_same in H; auto.
  - destruct (incidents_list client rg ws w) as [w1 [pager|e]]; by eexists.
Qed.

End setup.

Section model.
Context {W : Type} `{!Collaborators W}.
Import llm_client sentinel_client auto_triage.

(** ** The model's answer *)

(** X5: a reply that cannot be read (no choice at all, or a first message
    without "content") is handled like a failed call: the error is logged
    and the safe default is returned. *)
Theorem analyse_incident_unreadable_reply (self : LLMClient)
    (incident_title incident_description : string) (w w' : W) (response : ChatResponse) :
  ChatCompletion_create
    (chat_request self (prompt_of incident_title incident_description)) w
    = (w', Ok response) →
  (choices response = [] ∨
   ∃ message rest, choices response = message :: rest ∧ message !! "content" = None) →
  ∃ e,
    analyse_incident self incident_title incident_description w
      = (w',
         [CallChat (chat_request self (prompt_of incident_title incident_description));
          llm_error e],
         Ok safe_default) ∧
    (e = IndexError "list index out of range" ∨ e = KeyError "content").
Proof.
  intros Hcall Hbad. rewrite analyse_incident_run. cbv zeta. rewrite Hcall.
  unfold first_content.
  destruct Hbad as [-> | (message & rest & -> & ->)]; eexists; split; eauto.
Qed.

(** X6: [analyse_incident] never raises and calls the provider exactly
    once.  Its result always has exactly the keys "recommended_status",
    "classification" and "comment", with recommended status "Active" and a
    classification that is empty or "Unspecified". *)
Theorem analyse_incident_result_shape (self : LLMClient)
    (incident_title incident_description : string) (w : W) :
  ∃ recommendation,
    outcome_of (analyse_incident self incident_title incident_description w)
      = Ok recommendation ∧
    chat_calls (events_of (analyse_incident self incident_title incident_description w)) = 1 ∧
    dom recommendation = ({[ "recommended_status"; "classification"; "comment" ]} : gset string) ∧
    recommendation !! "recommended_status" = Some "Active" ∧
    (recommendation !! "classification" = Some "" ∨
     recommendation !! "classification" = Some "Unspecified").
Proof.
  rewrite analyse_incident_run. cbv zeta.
  destruct (ChatCompletion_create _ w) as [w1 [response|e]];
    [destruct (first_content response) as [content|e]|].
  all: eexists; split; [reflexivity|]; split; [reflexivity|].
  all: split; [unfold placeholder, safe_default; set_solver|].
  all: split; [reflexivity|]; auto.
Qed.

(** X7: on the success path the stored comment neither starts nor ends
    with white space, and it is empty exactly when the reply consists of
    white space only. *)
Theorem analyse_incident_comment_trimmed (self : LLMClient)
    (incident_title incident_description : string) (w w' : W)
    (response : ChatResponse) (content : string) :
  ChatCompletion_create
    (chat_request self (prompt_of incident_title incident_description)) w
    = (w', Ok response) →
  first_content response = Ok content →
  ∃ recommendation comment,
    outcome_of (analyse_incident self incident_title incident_description w)
      = Ok recommendation ∧
    recommendation !! "comment" = Some comment ∧
    trimmed comment ∧
    (comment = "" ↔ all_space content = true).
Proof.
  intros Hcall Hcontent. rewrite analyse_incident_run. cbv zeta.
  rewrite Hcall, Hcontent. exists (placeholder content), (strip content).
  split_and!; [done|done|apply strip_is_trimmed|apply strip_empty].
Qed.

(** X8: what the loop makes of a reply.  For an incident whose status
    does not equal Active, a successful reply leads to an update to Active
    that carries no classification and, as comment, the stripped reply, or
    no comment at all when the reply is white space only (the white space
    of Python's [str.strip], which includes the Unicode spaces). *)
Theorem reply_becomes_comment_only (client : SecurityInsights) (config : SentinelConfig)
    (inc : Incident) (props : IncidentProperties) (summary : models.IncidentSummary)
    (content : string) (w : W) :
  ¬ same_status ACTIVE (sdk.status props) →
  decide_and_apply client config inc props summary (placeholder content) w
    = update_incident_status client config inc ACTIVE None
        (if all_space content then None else Some (strip content)) w.
Proof.
  intros Hst. unfold decide_and_apply.
  change (placeholder content !! "recommended_status") with (Some "Active").
  change (placeholder content !! "classification") with (Some "").
  change (placeholder content !! "comment") with (Some (strip content)).
  change (map_status (default "Active" (Some "Active"))) with ACTIVE.
  destruct (status_eq ACTIVE (sdk.status props)) eqn:Heq;
    [exfalso; by apply Hst, status_eq_same|].
  cbn [negb]. f_equal. unfold or_None. simpl.
  pose proof (strip_empty content) as Hempty.
  destruct (strip content) as [|c t], (all_space content); try done.
  - destruct Hempty as [Habs _]. by specialize (Habs eq_refl).
  - destruct Hempty as [_ Habs]. by specialize (Habs eq_refl).
Qed.

(** X9: what the loop makes of a failed model call.  For an incident whose
    status does not equal Active, the safe default still leads to an update
    to Active, and this update carries the classification "Unspecified" and
    the failure comment. *)
Theorem failed_model_call_still_updates (client : SecurityInsights)
    (config : SentinelConfig) (inc : Incident) (props : IncidentProperties)
    (summary : models.IncidentSummary) (w : W) :
  ¬ same_status ACTIVE (sdk.status props) →
  decide_and_apply client config inc props summary safe_default w
    = update_incident_status client config inc ACTIVE (Some "Unspecified")
        (Some "LLM analysis failed; leaving incident open.") w.
Proof.
  intros Hst. unfold decide_and_apply.
  change (safe_default !! "recommended_status") with (Some "Active").
  change (safe_default !! "classification") with (Some "Unspecified").
  change (safe_default !! "comment")
    with (Some "LLM analysis failed; leaving incident open.").
  change (map_status (default "Active" (Some "Active"))) with ACTIVE.
  destruct (status_eq ACTIVE (sdk.status props)) eqn:Heq; [|done].
  exfalso. by apply Hst, status_eq_same.
Qed.

End model.


Section store.
Context {W : Type} `{!Collaborators W}.
Import llm_client sentinel_client auto_triage.

(** ** Update application *)

(** X10: one call of [update_incident_status] re-fetches the incident it
    was given exactly once, never calls the model, and submits at most one
    record: none, or one for the re-fetched record, under that record's
    name and with the requested status. *)
Theorem update_refetches_once_writes_at_most_once (client : SecurityInsights)
    (config : SentinelConfig) (inc : Incident) (st : IncidentStatus)
    (cl cm : option string) (w : W) :
  let run := update_incident_status client config inc st cl cm w in
  refetched (events_of run) = [name inc] ∧
  chat_calls (events_of run) = 0 ∧
  (writes (events_of run) = [] ∨
   ∃ w1 current props,
     incidents_get client (resource_group config) (workspace_name config) (name inc) w
       = (w1, Ok (Some current)) ∧
     properties current = Some props ∧
     writes (events_of run) = [(name current, Some st)]).
Proof.
  intros run. subst run. rewrite update_incident_status_run. cbv zeta.
  destruct (incidents_get _ _ _ _ w) as [w1 [[current|]|e]] eqn:Hget;
    [destruct (properties current) as [props|] eqn:Hprops;
       [destruct (incidents_create_or_update _ _ _ _ _ w1) as [w2 [[]|e]]|]|..].
  all: split; [reflexivity|]; split; [reflexivity|].
  all: try (left; reflexivity).
  all: right; exists w1, current, props; split_and!; try done.
  all: unfold writes, events_of; simpl.
  all: by rewrite listed_status_modified.
Qed.

(** X11: when the re-fetched record has no properties, the assignment of
    the status fails; the [AttributeError] is caught and logged with the
    incident id, and nothing is submitted. *)
Theorem update_of_record_without_properties (client : SecurityInsights)
    (config : SentinelConfig) (inc : Incident) (st : IncidentStatus)
    (cl cm : option string) (w w1 : W) (current : Incident) :
  incidents_get client (resource_group config) (workspace_name config) (name inc) w
    = (w1, Ok (Some current)) →
  properties current = None →
  update_incident_status client config inc st cl cm w
    = (w1,
       [CallGet (resource_group config) (workspace_name config) (name inc);
        update_error (name inc)
          (AttributeError "'NoneType' object has no attribute 'status'")],
       Ok tt).
Proof.
  intros Hget Hprops. rewrite update_incident_status_run. cbv zeta.
  by rewrite Hget, Hprops.
Qed.

(** X12: two updates of a record in a row amount to one: the second
    status wins, and for the classification and the comment the second
    value wins when it is non-empty and the first one otherwise.  In
    particular, applying the same update twice changes nothing more. *)
Theorem modify_properties_compose (props : IncidentProperties)
    (st1 st2 : IncidentStatus) (cl1 cm1 cl2 cm2 : option string) :
  modify_properties (modify_properties props st1 cl1 cm1) st2 cl2 cm2
    = modify_properties props st2
        (if truthy cl2 then cl2 else cl1) (if truthy cm2 then cm2 else cm1)
  ∧ modify_properties (modify_properties props st1 cl1 cm1) st1 cl1 cm1
    = modify_properties props st1 cl1 cm1.
Proof.
  unfold modify_properties.
  destruct (truthy cl1) eqn:H1, (truthy cm1) eqn:H2,
           (truthy cl2) eqn:H3, (truthy cm2) eqn:H4;
    simpl; rewrite ?H1, ?H2, ?H3, ?H4; done.
Qed.

(** ** The loop *)

(** X13: an incident listed as Active is left alone.  Its iteration calls
    the model once, makes no call on the store, and ends with the record
    "No status change"; the world is the one the model call left. *)
Theorem active_incident_is_left_alone (client : SecurityInsights) (config : SentinelConfig)
    (llm : LLMClient) (inc : Incident) (props : IncidentProperties)
    (summary : models.IncidentSummary) (w : W) :
  properties inc = Some props →
  sdk.status props = StatusMember ACTIVE →
  make_summary (name inc) props = Ok summary →
  let run := triage_incident client config llm inc w in
  outcome_of run = Ok tt ∧
  world_of run
    = world_of (analyse_incident llm (models.title summary) (models.description summary) w) ∧
  chat_calls (events_of run) = 1 ∧
  refetched (events_of run) = [] ∧
  writes (events_of run) = [] ∧
  last (events_of run)
    = Some (Log INFO "No status change for incident %s" [ArgStr (name inc)]).
Proof.
  intros Hprops Hst Hsum run. subst run.
  unfold triage_incident. rewrite Hprops. cbv [bind ret lift log emit]. rewrite Hsum.
  rewrite (make_summary_id _ _ _ Hsum).
  assert (∀ recommendation w1,
            recommendation !! "recommended_status" = Some "Active" →
            decide_and_apply client config inc props summary recommendation w1
              = (w1, [Log INFO "No status change for incident %s" [ArgStr (name inc)]],
                 Ok tt)) as Hnoop.
  { intros recommendation w1 Hrec. unfold decide_and_apply. rewrite Hrec.
    change (map_status (default "Active" (Some "Active"))) with ACTIVE.
    by rewrite Hst, (make_summary_id _ _ _ Hsum). }
  rewrite analyse_incident_run. cbv zeta.
  destruct (ChatCompletion_create _ w) as [w1 [response|e]];
    [destruct (first_content response) as [content|e]|];
    by rewrite Hnoop.
Qed.

End store.

Section pass.
Context {W : Type} `{!Collaborators W}.
Import llm_client sentinel_client auto_triage.

(** ** A whole pass, continued *)

Lemma chat_calls_app (evs1 evs2 : list Event) :
  chat_calls (evs1 ++ evs2) = chat_calls evs1 + chat_calls evs2.
Proof. unfold chat_calls. by rewrite List.filter_app, length_app. Qed.

Lemma processed_app_length (evs1 evs2 : list Event) :
  length (processed (evs1 ++ evs2)) = length (processed evs1) + length (processed evs2).
Proof. unfold processed. by rewrite omap_app, length_app. Qed.

Lemma bind_balanced {A B} (m : M W A) (k : A → M W B) (w : W) :
  chat_calls (events_of (m w)) = length (processed (events_of (m w))) →
  (∀ a w1, chat_calls (events_of (k a w1)) = length (processed (events_of (k a w1)))) →
  chat_calls (events_of (bind m k w)) = length (processed (events_of (bind m k w))).
Proof.
  unfold bind, events_of.
  destruct (m w) as [[w1 evs] [a|e]]; simpl; intros H1 H2; [|done].
  specialize (H2 a w1). destruct (k a w1) as [[??]?]; simpl in *.
  rewrite chat_calls_app, processed_app_length. lia.
Qed.

Lemma update_incident_status_quiet (client : SecurityInsights) (config : SentinelConfig)
    (inc : Incident) (st : IncidentStatus) (cl cm : option string) (w : W) :
  chat_calls (events_of (update_incident_status client config inc st cl cm w)) = 0 ∧
  processed (events_of (update_incident_status client config inc st cl cm w)) = [].
Proof.
  rewrite update_incident_status_run. cbv zeta.
  destruct (incidents_get _ _ _ _ w) as [w1 [[current|]|e]];
    [destruct (properties current) as [props|];
       [destruct (incidents_create_or_update _ _ _ _ _ w1) as [w2 [[]|e]]|]|..];
    by split.
Qed.

Lemma triage_incident_balanced (client : SecurityInsights) (config : SentinelConfig)
    (llm : LLMClient) (inc : Incident) (w : W) :
  chat_calls (events_of (triage_incident client config llm inc w))
    = length (processed (events_of (triage_incident client config llm inc w))).
Proof.
  unfold triage_incident.
  destruct (properties inc) as [props|]; [|done].
  cbv [bind ret lift log emit].
  destruct (make_summary (name inc) props) as [summary|e]; [|done].
  rewrite analyse_incident_run. cbv zeta.
  assert (∀ recommendation w1,
            chat_calls (events_of (decide_and_apply client config inc props summary
                                     recommendation w1)) = 0 ∧
            processed (events_of (decide_and_apply client config inc props summary
                                    recommendation w1)) = []) as Hquiet.
  { intros recommendation w1. unfold decide_and_apply.
    destruct (negb _); [apply update_incident_status_quiet|by split]. }
  destruct (ChatCompletion_create _ w) as [w1 [response|e]];
    [destruct (first_content response) as [content|e]|].
  all: match goal with
       | |- context [decide_and_apply ?c ?g ?i ?p ?s ?r ?w1] =>
           destruct (Hquiet r w1) as [Hc Hp];
           destruct (decide_and_apply c g i p s r w1) as [[w2 evs2] out]
       end.
  all: unfold events_of in *; simpl in *.
  all: rewrite ?chat_calls_app, Hp; unfold chat_calls in *; simpl in *; lia.
Qed.

Lemma for_each_balanced (client : SecurityInsights) (config : SentinelConfig)
    (llm : LLMClient) (incidents : list Incident) (w : W) :
  chat_calls (events_of (for_each incidents (triage_incident client config llm) w))
    = length (processed (events_of (for_each incidents
                                      (triage_incident client config llm) w))).
Proof.
  revert w. induction incidents as [|inc incidents IH]; intros w; [done|].
  simpl. apply bind_balanced; [apply triage_incident_balanced|]. intros _ w1. apply IH.
Qed.

(** X14: in a pass of [run_triage] the model is called exactly once for
    every incident whose processing is announced, whatever the services
    do. *)
Theorem run_triage_one_model_call_per_incident (w : W) :
  chat_calls (events_of (run_triage w)) = length (processed (events_of (run_triage w))).
Proof.
  unfold run_triage.
  apply bind_balanced.
  { unfold configure_logging, call, events_of. by destruct (logging_setup w). }
  intros _ w1. apply bind_balanced; [done|].
  intros _ w2. apply bind_balanced; [by rewrite load_config_events|].
  intros config w3. apply bind_balanced.
  { unfold get_sentinel_client, get_credential.
    cbv [bind try_except call raise ret log emit events_of].
    by destruct (credential_get_token w3) as [w4 [[]|e]]. }
  intros client w4. apply bind_balanced.
  { cbv [try_except bind read ret log emit events_of].
    pose proof (new_LLMClient_events (default "gpt-4" (getenv "LLM_MODEL" w4)) w4) as Hev.
    unfold events_of in Hev.
    destruct (new_LLMClient _ w4) as [[w5 evs] [c|e]]; simpl in *; by subst evs. }
  intros [llm|] w5; [|done].
  apply bind_balanced.
  { rewrite list_active_incidents_run. cbv zeta.
    by destruct (incidents_list _ _ _ w5) as [w6 [pager|e]]. }
  intros incidents w6. apply for_each_balanced.
Qed.

Lemma load_config_run (w : W) :
  load_config w = (w, [], outcome_of (load_config w)).
Proof.
  unfold load_config. cbv [bind read raise ret outcome_of].
  by destruct (negb _).
Qed.

Lemma load_config_missing (k : string) (w : W) :
  k ∈ ["SUBSCRIPTION_ID"; "RESOURCE_GROUP"; "WORKSPACE_NAME"] →
  truthy (getenv k w) = false →
  outcome_of (load_config w)
    = Raise (EnvironmentError
        "SUBSCRIPTION_ID, RESOURCE_GROUP and WORKSPACE_NAME environment variables must be set").
Proof.
  intros Hk Hfalsy. unfold load_config. cbv [bind read raise ret outcome_of].
  repeat (apply elem_of_cons in Hk as [-> | Hk]); [..|by apply elem_of_nil in Hk];
    rewrite Hfalsy; simpl; by rewrite ?andb_false_r.
Qed.

Lemma new_LLMClient_raises (model_name : string) (w : W) (e : exn) :
  outcome_of (new_LLMClient model_name w) = Raise e →
  new_LLMClient model_name w = (w, [], Raise e).
Proof.
  unfold new_LLMClient. cbv [bind read raise ret modify outcome_of].
  destruct (openai_is_None w); [by intros [= ->]|].
  destruct (negb _); [by intros [= ->]|done].
Qed.

(** X15: a missing setting is fatal before any service is contacted.  When
    logging is set up and, after [load_dotenv], one of the three settings
    is unset or empty, [run_triage] raises [EnvironmentError] without
    having emitted anything: no credential request, no listing, no model
    call. *)
Theorem run_triage_stops_without_settings (w w1 : W) (u : unit) (k : string) :
  logging_setup w = (w1, Ok u) →
  k ∈ ["SUBSCRIPTION_ID"; "RESOURCE_GROUP"; "WORKSPACE_NAME"] →
  truthy (getenv k (load_dotenv w1)) = false →
  run_triage w
    = (load_dotenv w1, [],
       Raise (EnvironmentError
         "SUBSCRIPTION_ID, RESOURCE_GROUP and WORKSPACE_NAME environment variables must be set")).
Proof.
  intros Hlog Hk Hfalsy. unfold run_triage, configure_logging.
  cbv [bind call modify]. rewrite Hlog.
  rewrite load_config_run, (load_config_missing k _ Hk Hfalsy). done.
Qed.

(** X16: a model client that cannot be built does not make the pass fail.
    With logging, settings and credentials in order, the token is reported
    at debug level, the exception of [LLMClient.__init__] is logged as an
    error and [run_triage] returns normally, without listing the
    incidents. *)
Theorem run_triage_returns_without_model_client (w w1 w3 : W) (u u' : unit)
    (config : SentinelConfig) (e : exn) :
  logging_setup w = (w1, Ok u) →
  outcome_of (load_config (load_dotenv w1)) = Ok config →
  credential_get_token (load_dotenv w1) = (w3, Ok u') →
  outcome_of (new_LLMClient (default "gpt-4" (getenv "LLM_MODEL" w3)) w3) = Raise e →
  run_triage w
    = (w3,
       [Log DEBUG "Obtained token using DefaultAzureCredential" [];
        Log ERROR "LLM client could not be initialised: %s" [ArgExn e]],
       Ok tt).
Proof.
  intros Hlog Hconfig Htoken Hclient. unfold run_triage, configure_logging.
  unfold get_sentinel_client, get_credential.
  cbv [bind call modify try_except read ret log emit]. rewrite Hlog.
  rewrite load_config_run, Hconfig, Htoken.
  by rewrite (new_LLMClient_raises _ _ _ Hclient).
Qed.

(** X17: the script's entry point never raises.  When [run_triage]
    returns, [main] is that run; when it raises, the exception is logged
    after everything the pass had emitted. *)
Theorem main_never_raises (w : W) :
  outcome_of (main w) = Ok tt ∧
  (outcome_of (run_triage w) = Ok tt → main w = run_triage w) ∧
  (∀ e, outcome_of (run_triage w) = Raise e →
        world_of (main w) = world_of (run_triage w) ∧
        events_of (main w)
          = events_of (run_triage w)
            ++ [Log ERROR "Unhandled exception in triage script: %s" [ArgExn e]]).
Proof.
  unfold main, try_except, log, emit, outcome_of, events_of, world_of.
  destruct (run_triage w) as [[w1 evs] [[]|e]]; simpl.
  - split_and!; [done|done|by intros e [=]].
  - split_and!; [done|by intros [=]|]. by intros e' [= <-].
Qed.







End pass.

Section iteration.
Context {W : Type} `{!Collaborators W}.
Import llm_client sentinel_client auto_triage.

Lemma update_incident_status_calls (client : SecurityInsights) (config : SentinelConfig)
    (inc : Incident) (st : IncidentStatus) (cl cm : option string) (w : W) :
  outcome_of (update_incident_status client config inc st cl cm w) = Ok tt ∧
  chat_calls (events_of (update_incident_status client config inc st cl cm w)) = 0 ∧
  refetched (events_of (update_incident_status client config inc st cl cm w)) = [name inc] ∧
  (writes (events_of (update_incident_status client config inc st cl cm w)) = [] ∨
   ∃ incident_id,
     writes (events_of (update_incident_status client config inc st cl cm w))
       = [(incident_id, Some st)]).
Proof.
  rewrite update_incident_status_run. cbv zeta.
  destruct (incidents_get _ _ _ _ w) as [w1 [[current|]|e]];
    [destruct (properties current) as [props|];
       [destruct (incidents_create_or_update _ _ _ _ _ w1) as [w2 [[]|e]]|]|..].
  all: split_and!; try reflexivity.
  all: try (left; reflexivity).
  all: right; exists (name current); unfold writes, events_of; simpl.
  all: by rewrite listed_status_modified.
Qed.

(** X19: an incident listed with a status that does not equal Active gets
    exactly one update attempt.  Its iteration calls the model once, re-fetches
    that incident once and submits at most one record, with status Active;
    it returns normally whatever the model and the store do. *)
Theorem other_incident_is_updated_once (client : SecurityInsights)
    (config : SentinelConfig) (llm : LLMClient) (inc : Incident)
    (props : IncidentProperties) (summary : models.IncidentSummary) (w : W) :
  properties inc = Some props →
  ¬ same_status ACTIVE (sdk.status props) →
  make_summary (name inc) props = Ok summary →
  let run := triage_incident client config llm inc w in
  outcome_of run = Ok tt ∧
  processed (events_of run) = [name inc] ∧
  chat_calls (events_of run) = 1 ∧
  refetched (events_of run) = [name inc] ∧
  (writes (events_of run) = [] ∨
   ∃ incident_id, writes (events_of run) = [(incident_id, Some ACTIVE)]).
Proof.
  intros Hprops Hst Hsum run. subst run.
  unfold triage_incident. rewrite Hprops. cbv [bind ret lift log emit]. rewrite Hsum.
  rewrite (make_summary_id _ _ _ Hsum).
  assert (∀ recommendation w1,
            recommendation !! "recommended_status" = Some "Active" →
            ∃ cl cm,
              decide_and_apply client config inc props summary recommendation w1
                = update_incident_status client config inc ACTIVE cl cm w1) as Hupd.
  { intros recommendation w1 Hrec. unfold decide_and_apply. rewrite Hrec.
    change (map_status (default "Active" (Some "Active"))) with ACTIVE.
    destruct (status_eq ACTIVE (sdk.status props)) eqn:Heq; [|by eauto].
    exfalso. by apply Hst, status_eq_same. }
  rewrite analyse_incident_run. cbv zeta.
  destruct (ChatCompletion_create _ w) as [w1 [response|e]];
    [destruct (first_content response) as [content|e]|].
  all: match goal with
       | |- context [decide_and_apply ?c ?g ?i ?p ?s ?r ?w1] =>
           destruct (Hupd r w1 eq_refl) as (cl & cm & ->);
           destruct (update_incident_status_calls c g i ACTIVE cl cm w1)
             as (Hout & Hchat & Hget & Hput);
           destruct (update_incident_status_quiet c g i ACTIVE cl cm w1) as [_ Hproc];
           destruct (update_incident_status c g i ACTIVE cl cm w1) as [[w2 evs2] out]
       end.
  all: unfold outcome_of, events_of, processed, chat_calls, refetched, writes in *.
  all: simpl in *.
  all: rewrite ?Hchat, ?Hget, ?Hproc.
  all: split_and!; try done.
  all: f_equal; exact Hproc.
Qed.

End iteration.

(** ** The further properties on a scripted world *)

Lemma load_config_requires_all_settings_witness :
  outcome_of (auto_triage.load_config (sim.configured [] [])) = Ok sim.config ∧
  outcome_of (auto_triage.load_config sim.half_configured)
    = Raise (EnvironmentError
        "SUBSCRIPTION_ID, RESOURCE_GROUP and WORKSPACE_NAME environment variables must be set").
Proof.
  split.
  - destruct (load_config_requires_all_settings (sim.configured [] []))
      as (_ & _ & Hset & _).
    apply (Hset "sub" "rg" "ws"); (reflexivity || discriminate).
  - destruct (load_config_requires_all_settings sim.half_configured)
      as (_ & _ & _ & Hmissing).
    apply (Hmissing "RESOURCE_GROUP"); [|reflexivity].
    right. left.
Defined.

Lemma new_LLMClient_checks_witness :
  outcome_of (llm_client.new_LLMClient "gpt-4" sim.without_openai)
    = Raise (ImportError
        "openai package is not installed. Install openai or implement a different provider.")
  ∧ outcome_of (llm_client.new_LLMClient "gpt-4" sim.without_key)
    = Raise (ValueError "OPENAI_API_KEY environment variable is not set")
  ∧ llm_client.new_LLMClient "gpt-4" (sim.configured [] [])
    = (sim.set_api_key "sk-test" (sim.configured [] []), [], Ok sim.llm).
Proof.
  split; [|split].
  - destruct (new_LLMClient_checks "gpt-4" sim.without_openai) as (Hpkg & _ & _).
    rewrite Hpkg; reflexivity.
  - destruct (new_LLMClient_checks "gpt-4" sim.without_key) as (_ & Hkey & _).
    rewrite Hkey; reflexivity.
  - destruct (new_LLMClient_checks "gpt-4" (sim.configured [] [])) as (_ & _ & Hok).
    apply (Hok "sk-test"); (reflexivity || discriminate).
Defined.

Lemma get_sentinel_client_needs_token_witness :
  sentinel_client.get_sentinel_client sim.config sim.without_credentials
    = (sim.without_credentials,
       [Log ERROR "Failed to obtain Azure credentials: %s" [ArgExn sim.no_credentials]],
       Raise sim.no_credentials)
  ∧ sentinel_client.get_sentinel_client sim.config (sim.configured [] [])
    = (sim.configured [] [],
       [Log DEBUG "Obtained token using DefaultAzureCredential" []], Ok sim.client).
Proof.
  split.
  - apply (proj1 (get_sentinel_client_needs_token sim.config sim.without_credentials)).
    reflexivity.
  - apply (proj2 (get_sentinel_client_needs_token sim.config (sim.configured [] []))
             (sim.configured [] []) tt).
    reflexivity.
Defined.

Lemma list_active_incidents_filters_witness :
  outcome_of (sentinel_client.list_active_incidents sim.client sim.config
                (sim.faulty true None (Some sim.timeout) (sim.configured [sim.inc1] [])))
    = Ok []
  ∧ ∃ incidents,
      outcome_of (sentinel_client.list_active_incidents sim.client sim.config
                    (sim.configured
                       [sim.inc_closed; sim.inc1; sim.inc_bare; sim.inc3; sim.inc_unset] []))
        = Ok incidents ∧
      incidents `sublist_of`
        [sim.inc_closed; sim.inc1; sim.inc_bare; sim.inc3; sim.inc_unset] ∧
      sim.inc1 ∈ incidents ∧ sim.inc3 ∈ incidents.
Proof.
  split.
  - pose proof (list_active_incidents_filters sim.client sim.config
                  (sim.faulty true None (Some sim.timeout) (sim.configured [sim.inc1] [])))
      as H.
    cbv zeta in H. destruct H as (Hfail & _ & _).
    rewrite (Hfail _ sim.timeout eq_refl). reflexivity.
  - pose proof (list_active_incidents_filters sim.client sim.config
                  (sim.configured
                     [sim.inc_closed; sim.inc1; sim.inc_bare; sim.inc3; sim.inc_unset] []))
      as H.
    cbv zeta in H. destruct H as (_ & Hok & _).
    destruct (Hok _ _ eq_refl) as (incidents & Hrun & Hsub & Hiff).
    exists incidents. rewrite Hrun. split; [reflexivity|]. split; [exact Hsub|].
    split; apply Hiff.
    + split; [right; left|]. eexists. split; [reflexivity|]. left. left. reflexivity.
    + split; [do 3 right; left|]. eexists. split; [reflexivity|]. right. left. reflexivity.
Defined.

Lemma analyse_incident_unreadable_reply_witness :
  ∃ e,
    llm_client.analyse_incident sim.llm "Suspicious login" "Multiple failed attempts"
      (sim.configured [] [Ok {| choices := [] |}])
    = (sim.configured [] [],
       [CallChat (llm_client.chat_request sim.llm
                    (llm_client.prompt_of "Suspicious login" "Multiple failed attempts"));
        llm_error e],
       Ok safe_default) ∧
    (e = IndexError "list index out of range" ∨ e = KeyError "content").
Proof.
  apply (analyse_incident_unreadable_reply sim.llm "Suspicious login"
           "Multiple failed attempts" (sim.configured [] [Ok {| choices := [] |}])
           (sim.configured [] []) {| choices := [] |}).
  - reflexivity.
  - left. reflexivity.
Defined.

Lemma analyse_incident_comment_trimmed_witness :
  ∃ recommendation comment,
    outcome_of (llm_client.analyse_incident sim.llm "Suspicious login"
                  "Multiple failed attempts"
                  (sim.configured [] [sim.reply "  Benign.  "])) = Ok recommendation ∧
    recommendation !! "comment" = Some comment ∧
    trimmed comment ∧
    (comment = "" ↔ all_space "  Benign.  " = true).
Proof.
  apply (analyse_incident_comment_trimmed sim.llm "Suspicious login"
           "Multiple failed attempts" (sim.configured [] [sim.reply "  Benign.  "])
           (sim.configured [] [])
           {| choices := [ {[ "role" := "assistant"; "content" := "  Benign.  " ]} ] |}
           "  Benign.  ").
  - reflexivity.
  - reflexivity.
Defined.

Lemma reply_becomes_comment_only_witness :
  auto_triage.decide_and_apply sim.client sim.config sim.inc1
      (sim.props (Some "Suspicious login") (SevMember "HIGH") (Some NEW))
      (sim.summary "inc-1" "NEW") (placeholder "   ") (sim.configured [sim.inc1] [])
    = sentinel_client.update_incident_status sim.client sim.config sim.inc1 ACTIVE
        None None (sim.configured [sim.inc1] []).
Proof.
  apply (reply_becomes_comment_only sim.client sim.config sim.inc1
           (sim.props (Some "Suspicious login") (SevMember "HIGH") (Some NEW))
           (sim.summary "inc-1" "NEW") "   " (sim.configured [sim.inc1] [])).
  intros [Heq|Heq]; vm_compute in Heq; discriminate Heq.
Defined.

Lemma failed_model_call_still_updates_witness :
  auto_triage.decide_and_apply sim.client sim.config sim.inc1
      (sim.props (Some "Suspicious login") (SevMember "HIGH") (Some NEW))
      (sim.summary "inc-1" "NEW") safe_default (sim.configured [sim.inc1] [])
    = sentinel_client.update_incident_status sim.client sim.config sim.inc1 ACTIVE
        (Some "Unspecified") (Some "LLM analysis failed; leaving incident open.")
        (sim.configured [sim.inc1] []).
Proof.
  apply (failed_model_call_still_updates sim.client sim.config sim.inc1
           (sim.props (Some "Suspicious login") (SevMember "HIGH") (Some NEW))
           (sim.summary "inc-1" "NEW") (sim.configured [sim.inc1] [])).
  intros [Heq|Heq]; vm_compute in Heq; discriminate Heq.
Defined.

Lemma update_of_record_without_properties_witness :
  sentinel_client.update_incident_status sim.client sim.config sim.inc_bare ACTIVE None
      (Some "Benign.") (sim.configured [sim.inc_bare] [])
    = (sim.configured [sim.inc_bare] [],
       [CallGet "rg" "ws" "inc-6";
        update_error "inc-6" (AttributeError "'NoneType' object has no attribute 'status'")],
       Ok tt).
Proof.
  apply (update_of_record_without_properties sim.client sim.config sim.inc_bare ACTIVE
           None (Some "Benign.") (sim.configured [sim.inc_bare] [])
           (sim.configured [sim.inc_bare] []) sim.inc_bare).
  - reflexivity.
  - reflexivity.
Defined.

Lemma active_incident_is_left_alone_witness :
  let run := auto_triage.triage_incident sim.client sim.config sim.llm sim.inc3
               (sim.configured [sim.inc3] [sim.reply "Closed, Benign."]) in
  outcome_of run = Ok tt ∧
  chat_calls (events_of run) = 1 ∧
  refetched (events_of run) = [] ∧
  writes (events_of run) = [] ∧
  last (events_of run)
    = Some (Log INFO "No status change for incident %s" [ArgStr "inc-3"]).
Proof.
  pose proof (active_incident_is_left_alone sim.client sim.config sim.llm sim.inc3
                (sim.props (Some "Port scan") (SevMember "LOW") (Some ACTIVE))
                {| models.id := "inc-3"; models.title := "Port scan";
                   models.description := "Multiple failed attempts";
                   models.severity := "LOW"; models.status := "ACTIVE" |}
                (sim.configured [sim.inc3] [sim.reply "Closed, Benign."])
                eq_refl eq_refl eq_refl) as H.
  cbv zeta in H. destruct H as (Hout & _ & Hchat & Hget & Hput & Hlast).
  cbv zeta. split; [exact Hout|]. split; [exact Hchat|]. split; [exact Hget|].
  split; [exact Hput|exact Hlast].
Defined.

Lemma run_triage_stops_without_settings_witness :
  outcome_of (auto_triage.run_triage sim.half_configured)
    = Raise (EnvironmentError
        "SUBSCRIPTION_ID, RESOURCE_GROUP and WORKSPACE_NAME environment variables must be set")
  ∧ events_of (auto_triage.run_triage sim.half_configured) = [].
Proof.
  rewrite (run_triage_stops_without_settings sim.half_configured sim.half_configured tt
             "WORKSPACE_NAME").
  - split; reflexivity.
  - reflexivity.
  - right. right. left.
  - reflexivity.
Defined.

Lemma run_triage_returns_without_model_client_witness :
  outcome_of (auto_triage.run_triage sim.without_openai) = Ok tt ∧
  events_of (auto_triage.run_triage sim.without_openai)
    = [Log DEBUG "Obtained token using DefaultAzureCredential" [];
       Log ERROR "LLM client could not be initialised: %s"
         [ArgExn (ImportError
            "openai package is not installed. Install openai or implement a different provider.")]].
Proof.
  rewrite (run_triage_returns_without_model_client sim.without_openai sim.without_openai
             (load_dotenv sim.without_openai) tt tt sim.config
             (ImportError
                "openai package is not installed. Install openai or implement a different provider.")).
  - split; reflexivity.
  - reflexivity.
  - reflexivity.
  - reflexivity.
  - reflexivity.
Defined.


Lemma other_incident_is_updated_once_witness :
  let run := auto_triage.triage_incident sim.client sim.config sim.llm sim.inc1
               (sim.configured [sim.inc1] [sim.reply "Benign."]) in
  outcome_of run = Ok tt ∧
  processed (events_of run) = ["inc-1"] ∧
  chat_calls (events_of run) = 1 ∧
  refetched (events_of run) = ["inc-1"] ∧
  (writes (events_of run) = [] ∨
   ∃ incident_id, writes (events_of run) = [(incident_id, Some ACTIVE)]).
Proof.
  apply (other_incident_is_updated_once sim.client sim.config sim.llm sim.inc1
           (sim.props (Some "Suspicious login") (SevMember "HIGH") (Some NEW))
           {| models.id := "inc-1"; models.title := "Suspicious login";
              models.description := "Multiple failed attempts";
              models.severity := "HIGH"; models.status := "NEW" |}
           (sim.configured [sim.inc1] [sim.reply "Benign."])).
  - reflexivity.
  - intros [Heq|Heq]; vm_compute in Heq; discriminate Heq.
  - reflexivity.
Defined.
